(** * Gfycat SDK (es5-gfycat-sdk.js): a shallow embedding and its properties

    The JavaScript client is embedded as a state-and-exception monad over
    - the module-level variables [API_BASE_PATH] and [promisesExist],
    - the client object the methods run on ([this]),
    - a store of request descriptors (the [options] objects handed to
      [_request], which the code updates in place), and
    - a trace of what the outside world can observe: transport dispatches,
      invocations of the caller's callback, console output.

    The HTTP transport ([httpService.request]) and the query encoder
    ([queryString.stringify]) are external collaborators and enter as
    section variables.  The transport is consulted synchronously: it answers
    a request, given the requests sent before it, by either resolving with a
    body or rejecting with an error.  A promise is represented by the state
    it settles in.  Numbers are integers. *)

From Stdlib Require Import ZArith String List Lia.
From stdpp Require Import base option gmap strings list pretty.

#[local] Set Warnings "-register-all".
#[local] Open Scope string_scope.
#[local] Open Scope Z_scope.

(** ** JavaScript values *)

Inductive jsval :=
  | JUndefined
  | JNull
  | JBool (b : bool)
  | JNum (n : Z)
  | JStr (s : string)
  | JObj (props : gmap string jsval)
  | JError (msg : string)          (* new Error(msg) *)
  | JTypeError.                    (* a TypeError raised by the runtime *)

(** ToBoolean. *)
Definition truthy (v : jsval) : bool :=
  match v with
  | JUndefined | JNull => false
  | JBool b => b
  | JNum n => negb (n =? 0)
  | JStr s => negb (String.eqb s "")
  | JObj _ | JError _ | JTypeError => true
  end.

(** [v == null]: true exactly for null and undefined. *)
Definition nullish (v : jsval) : bool :=
  match v with
  | JUndefined | JNull => true
  | _ => false
  end.

(** [a || b]. *)
Definition js_or (a b : jsval) : jsval := if truthy a then a else b.

(** [typeof v === 'object']. *)
Definition typeof_object (v : jsval) : bool :=
  match v with
  | JNull | JObj _ | JError _ | JTypeError => true
  | _ => false
  end.

(** [err === 401]. *)
Definition is_401 (v : jsval) : bool :=
  match v with
  | JNum n => n =? 401
  | _ => false
  end.

(** ToString, as used by string concatenation; for the integers JavaScript
    prints in full (below 10^21) and for errors that have a message. *)
Definition to_string (v : jsval) : string :=
  match v with
  | JUndefined => "undefined"
  | JNull => "null"
  | JBool true => "true"
  | JBool false => "false"
  | JNum n => pretty n
  | JStr s => s
  | JObj _ => "[object Object]"
  | JError msg => "Error: " +:+ msg
  | JTypeError => "TypeError"
  end.

(** Property read [v.k]: a TypeError on null and undefined, the own
    property of an object, undefined otherwise. *)
Definition get_prop (v : jsval) (k : string) : option jsval :=
  match v with
  | JUndefined | JNull => None
  | JObj m => Some (default JUndefined (m !! k))
  | _ => Some JUndefined
  end.

(** [v.hasOwnProperty(k)], for a value that is not null. *)
Definition hasOwnProperty (v : jsval) (k : string) : bool :=
  match v with
  | JObj m => bool_decide (is_Some (m !! k))
  | _ => false
  end.

(** ** Objects of the program *)

(** The client instance ([this] inside the methods).  A field that was
    never assigned reads as undefined. *)
Record client := {
  client_id : jsval;
  client_secret : jsval;
  timeout : jsval;
  apiUrl : string;
  retryLimit : Z;
  access_token : jsval;
  token_type : jsval
}.

(** The request descriptor: the [options] object of [_request], typed as
    its documentation types it (lines 327-334).  An absent field is [None] /
    undefined.  A query or headers that is null is not a value of this type:
    no method of the client builds one, and [_request] raises a TypeError on
    it (line 364, and line 359 when a token is held). *)
Record descriptor := {
  api : string;
  endpoint : string;
  method : string;
  query : option (gmap string jsval);
  payload : jsval;
  headers : option (gmap string jsval);
  opt_timeout : jsval;
  counter : option Z
}.

(** What the transport receives ([httpOptions]); [None] headers is null. *)
Record http_options := {
  req_headers : option (gmap string jsval);
  req_method : string;
  req_payload : jsval;
  url : string;
  req_timeout : jsval
}.

(** How the transport completes a request. *)
Inductive outcome :=
  | TResolve (body : jsval)
  | TReject (err : jsval).

(** A promise, by the state it settles in. *)
Inductive promise :=
  | Fulfilled (v : jsval)
  | Rejected (e : jsval).

(** What a function of the program returns: a plain value or a promise. *)
Inductive ret :=
  | RVal (v : jsval)
  | RPromise (p : promise).

Definition loc := nat.

Inductive event :=
  | Dispatch (l : loc) (r : http_options)   (* httpService.request, for descriptor l *)
  | Callback (err res : jsval)              (* the caller's callback was invoked *)
  | Authenticate                            (* authenticate was entered *)
  | ConsoleError.                           (* console.error was called *)

Record state := {
  API_BASE_PATH : string;
  promisesExist : bool;
  this : client;
  heap : list descriptor;
  trace : list event
}.

Definition API_HOSTNAME : string := "https://api.gfycat.com".

(** The module as loaded, running on a given client. *)
Definition initial_state (promises : bool) (c : client) : state :=
  {| API_BASE_PATH := "/v1"; promisesExist := promises; this := c;
     heap := []; trace := [] |}.

(** ** The monad: state, exceptions, and running out of fuel *)

Inductive result (A : Type) :=
  | Ok (a : A)
  | Throw (e : jsval)
  | NoResult.            (* fuel exhausted, or a descriptor that is not stored *)
Arguments Ok {A} a.
Arguments Throw {A} e.
Arguments NoResult {A}.

Definition M (A : Type) : Type := state → result A * state.

Definition ret_ {A} (a : A) : M A := λ st, (Ok a, st).

Definition bind {A B} (m : M A) (k : A → M B) : M B :=
  λ st, match m st with
        | (Ok a, st') => k a st'
        | (Throw e, st') => (Throw e, st')
        | (NoResult, st') => (NoResult, st')
        end.

Notation "'do' x <- m ; k" := (bind m (λ x, k))
  (at level 10, x name, m at level 100, k at level 200).
Notation "m ;; k" := (bind m (λ _, k))
  (at level 100, k at level 200, right associativity).

Definition throw {A} (e : jsval) : M A := λ st, (Throw e, st).
Definition no_result {A} : M A := λ st, (NoResult, st).
Definition gets {A} (f : state → A) : M A := λ st, (Ok (f st), st).

Definition set_this (c : client) (st : state) : state :=
  {| API_BASE_PATH := API_BASE_PATH st; promisesExist := promisesExist st;
     this := c; heap := heap st; trace := trace st |}.
Definition set_heap (h : list descriptor) (st : state) : state :=
  {| API_BASE_PATH := API_BASE_PATH st; promisesExist := promisesExist st;
     this := this st; heap := h; trace := trace st |}.
Definition set_trace (t : list event) (st : state) : state :=
  {| API_BASE_PATH := API_BASE_PATH st; promisesExist := promisesExist st;
     this := this st; heap := heap st; trace := t |}.
Definition set_base_path (p : string) (st : state) : state :=
  {| API_BASE_PATH := p; promisesExist := promisesExist st;
     this := this st; heap := heap st; trace := trace st |}.

Definition modify (f : state → state) : M unit := λ st, (Ok tt, f st).
Definition log (e : event) : M unit := modify (λ st, set_trace (trace st ++ [e]) st).

(** Reading, allocating and updating descriptor objects. *)
Definition deref (l : loc) : M descriptor :=
  λ st, match heap st !! l with
        | Some d => (Ok d, st)
        | None => (NoResult, st)
        end.
Definition alloc (d : descriptor) : M loc :=
  λ st, (Ok (length (heap st)), set_heap (heap st ++ [d]) st).
Definition update (l : loc) (f : descriptor → descriptor) : M unit :=
  do d <- deref l; modify (λ st, set_heap (<[l := f d]> (heap st)) st).

Definition set_counter (c : Z) (d : descriptor) : descriptor :=
  {| api := api d; endpoint := endpoint d; method := method d; query := query d;
     payload := payload d; headers := headers d; opt_timeout := opt_timeout d;
     counter := Some c |}.
Definition set_headers (h : gmap string jsval) (d : descriptor) : descriptor :=
  {| api := api d; endpoint := endpoint d; method := method d; query := query d;
     payload := payload d; headers := Some h; opt_timeout := opt_timeout d;
     counter := counter d |}.
Definition set_query (q : gmap string jsval) (d : descriptor) : descriptor :=
  {| api := api d; endpoint := endpoint d; method := method d; query := Some q;
     payload := payload d; headers := headers d; opt_timeout := opt_timeout d;
     counter := counter d |}.

(** Property read inside the monad. *)
Definition prop (v : jsval) (k : string) : M jsval :=
  match get_prop v k with
  | Some x => ret_ x
  | None => throw JTypeError
  end.

(** A callback: called with [(err, res)]; a missing argument is undefined. *)
Definition callback := jsval → jsval → M ret.

(** The caller's callback: its invocation is what the caller observes. *)
Definition user_callback : callback :=
  λ err res, log (Callback err res) ;; ret_ (RVal JUndefined).

(** [p.then(f)] and [p.catch(g)]: the handler runs on the matching state;
    what it returns settles the new promise, what it throws rejects it. *)
Definition settle (m : M ret) : M promise :=
  λ st, match m st with
        | (Ok (RVal v), st') => (Ok (Fulfilled v), st')
        | (Ok (RPromise q), st') => (Ok q, st')
        | (Throw e, st') => (Ok (Rejected e), st')
        | (NoResult, st') => (NoResult, st')
        end.
Definition p_then (p : promise) (f : jsval → M ret) : M promise :=
  match p with
  | Fulfilled v => settle (f v)
  | Rejected e => ret_ (Rejected e)
  end.
Definition p_catch (p : promise) (g : jsval → M ret) : M promise :=
  match p with
  | Fulfilled v => ret_ (Fulfilled v)
  | Rejected e => settle (g e)
  end.

(** A method call on what a function returned: [.then] exists on promises. *)
Definition as_promise (r : ret) : M promise :=
  match r with
  | RPromise p => ret_ p
  | RVal _ => throw JTypeError
  end.

(** ** _handleErr (lines 22-30) *)
Definition _handleErr (err : string) (cb : option callback) : M ret :=
  match cb with
  | Some f => f (JStr err) JUndefined
  | None =>
      do pe <- gets promisesExist;
      if pe then ret_ (RPromise (Rejected (JStr err)))
      else throw (JError err)
  end.

(** ** The constructor (lines 40-54) *)
Definition GfycatSDK (options : jsval) : M client :=
  do creds <-
    (if typeof_object options then
       match options with
       | JNull => throw JTypeError        (* null.hasOwnProperty *)
       | _ => ret_ (hasOwnProperty options "client_id"
                    && hasOwnProperty options "client_secret")
       end
     else ret_ false);
  do fields <-
    (if creds : bool then
       do id <- prop options "client_id";
       do secret <- prop options "client_secret";
       do t <- prop options "timeout";
       ret_ (id, secret, js_or t (JNum 30000))
     else if negb (truthy options) then
       log ConsoleError ;;
       modify (set_base_path "/v1test") ;;
       ret_ (JUndefined, JUndefined, JUndefined)
     else
       throw (JError "Please provide a valid options object with client_id and client_secret."));
  do base <- gets API_BASE_PATH;
  ret_ {| client_id := fields.1.1; client_secret := fields.1.2; timeout := fields.2;
          apiUrl := API_HOSTNAME +:+ base; retryLimit := 2;
          access_token := JUndefined; token_type := JUndefined |}.

(** ** _setToken (lines 433-436) *)
Definition set_access_token (v : jsval) (c : client) : client :=
  {| client_id := client_id c; client_secret := client_secret c;
     timeout := timeout c; apiUrl := apiUrl c; retryLimit := retryLimit c;
     access_token := v; token_type := token_type c |}.
Definition set_token_type (v : jsval) (c : client) : client :=
  {| client_id := client_id c; client_secret := client_secret c;
     timeout := timeout c; apiUrl := apiUrl c; retryLimit := retryLimit c;
     access_token := access_token c; token_type := v |}.

Definition _setToken (options : jsval) : M unit :=
  do tok <- prop options "access_token";
  modify (λ st, set_this (set_access_token tok (this st)) st) ;;
  do ty <- prop options "token_type";
  modify (λ st, set_this (set_token_type ty (this st)) st).

Section Orchestrator.

(** The external collaborators: [httpService.request], answering a request
    given the requests sent so far, and [queryString.stringify]. *)
Variable transport : list http_options → http_options → outcome.
Variable stringify : gmap string jsval → string.

(** The requests handed to the transport so far. *)
Definition sent (t : list event) : list http_options :=
  omap (λ e, match e with Dispatch _ r => Some r | _ => None end) t.

(** [httpService.request(httpOptions, resolve, reject)] for descriptor [l]:
    returns which continuation the transport invokes, and with what. *)
Definition dispatch (l : loc) (r : http_options) : M outcome :=
  λ st, (Ok (transport (sent (trace st)) r),
         set_trace (trace st ++ [Dispatch l r]) st).

(** [options.counter || 0]. *)
Definition counter_or_zero (d : descriptor) : Z :=
  match counter d with
  | Some c => if c =? 0 then 0 else c
  | None => 0
  end.

(** The entries a query keeps: [delete options.query[key]] for every key
    whose value [== null]. *)
Definition strip_nulls (q : gmap string jsval) : gmap string jsval :=
  filter (λ kv, nullish kv.2 = false) q.

(** Lines 354-385 of [_request]: attach the token, build the query string
    (stripping the descriptor's query in place), assemble [httpOptions]. *)
Definition build_request (l : loc) : M http_options :=
  do c <- gets this;
  let token := if truthy (access_token c)
               then JStr ("Bearer " +:+ to_string (access_token c)) else JNull in
  (if truthy token then
     update l (λ d, set_headers (<["Authorization" := access_token c]>
                                   (default ∅ (headers d))) d)
   else ret_ tt) ;;
  do d <- deref l;
  do qs <-
    match query d with
    | Some q =>
        if negb (Nat.eqb (size q) 0) then
          update l (set_query (strip_nulls q)) ;;
          ret_ ("?" +:+ stringify (strip_nulls q))
        else ret_ ""
    | None => ret_ ""
    end;
  do d <- deref l;
  do c <- gets this;
  ret_ {| req_headers := headers d;
          req_method := method d;
          req_payload := js_or (payload d) JNull;
          url := apiUrl c +:+ api d +:+ endpoint d +:+ qs;
          req_timeout := js_or (opt_timeout d) (timeout c) |}.

(** The descriptor [authenticate] builds (lines 73-82). *)
Definition oauth_descriptor (c : client) (o_id o_secret o_grant : jsval) : descriptor :=
  {| api := "/oauth"; endpoint := "/token"; method := "POST";
     query := None;
     payload := JObj (<["client_id" := js_or o_id (client_id c)]>
                     (<["client_secret" := js_or o_secret (client_secret c)]>
                     (<["grant_type" := js_or o_grant (JStr "client_credentials")]> ∅)));
     headers := None; opt_timeout := JUndefined; counter := None |}.

(** ** authenticate (lines 67-103)

    [authenticate] and [_request] call each other; both are written over
    the [_request] they call ([self_request]), and the knot is tied by
    [_request] below. *)

(** The callback [authenticate] hands to [_request] (lines 87-92). *)
Definition authenticate_callback (f : callback) : callback :=
  λ err res,
    (if negb (truthy err) then
       _setToken res ;; f JNull res
     else f err JUndefined) ;;
    ret_ (RVal JUndefined).

Definition authenticate (self_request : option loc → option callback → M ret)
    (options : jsval) (cb : option callback) : M ret :=
  log Authenticate ;;
  let options := if negb (truthy options) then JObj ∅ else options in
  do c <- gets this;
  do o_id <- prop options "client_id";
  do o_secret <- prop options "client_secret";
  if negb (truthy (js_or (client_id c) (client_secret c)))
     && negb (truthy (js_or o_id o_secret))
  then _handleErr "Please provide client_id and client_secret in options" cb
  else
    do o_grant <- prop options "grant_type";
    do l <- alloc (oauth_descriptor c o_id o_secret o_grant);
    match cb with
    | Some f => self_request (Some l) (Some (authenticate_callback f))
    | None =>
        do r <- self_request (Some l) None;
        do p <- as_promise r;
        do p1 <- p_then p (λ res,
          _setToken res ;;
          (* Promise.resolve(res) is built and dropped *)
          ret_ (RVal JUndefined));
        do p2 <- p_catch p1 (λ err,
          (* Promise.reject(err) is built and dropped *)
          ret_ (RVal JUndefined));
        ret_ (RPromise p2)
    end.

(** ** _request (lines 338-431) *)

(** The callback handed to [authenticate] on a 401 (lines 395-401). *)
Definition retry_callback (self_request : option loc → option callback → M ret)
    (l : loc) (cnt : Z) (f : callback) : callback :=
  λ err res,
    if truthy err then f err JUndefined ;; ret_ (RVal JUndefined)
    else
      update l (set_counter (cnt + 1)) ;;
      self_request (Some l) (Some f).

(** [reject] of the callback convention (lines 393-405). *)
Definition reject_callback (self_request : option loc → option callback → M ret)
    (l : loc) (cnt : Z) (f : callback) (err : jsval) : M ret :=
  do d <- deref l;
  if is_401 err && negb (String.eqb (api d) "/oauth") then
    authenticate self_request (JObj ∅) (Some (retry_callback self_request l cnt f)) ;;
    ret_ (RVal JUndefined)
  else f err JUndefined ;; ret_ (RVal JUndefined).

(** The [.catch] handler of the promise convention (lines 416-429). *)
Definition catch_handler (self_request : option loc → option callback → M ret)
    (l : loc) (cnt : Z) (err : jsval) : M ret :=
  do d <- deref l;
  if is_401 err && negb (String.eqb (api d) "/oauth") then
    do r <- authenticate self_request (JObj ∅) None;
    do pa <- as_promise r;
    do pb <- p_then pa (λ res,
      update l (set_counter (cnt + 1)) ;;
      self_request (Some l) None);
    do pc <- p_catch pb (λ err, ret_ (RPromise (Rejected err)));
    ret_ (RPromise pc)
  else ret_ (RPromise (Rejected err)).

(** Lines 387-430: dispatch and completion, in either convention. *)
Definition dispatch_and_complete (self_request : option loc → option callback → M ret)
    (l : loc) (cnt : Z) (httpOptions : http_options) (cb : option callback) : M ret :=
  match cb with
  | Some f =>
      do out <- dispatch l httpOptions;
      match out with
      | TResolve res => f JNull res
      | TReject err => reject_callback self_request l cnt f err
      end ;;
      ret_ (RVal JUndefined)
  | None =>
      do out <- dispatch l httpOptions;
      let p := match out with
               | TResolve res => Fulfilled res
               | TReject err => Rejected err
               end in
      do p1 <- p_then p (λ res, ret_ (RPromise (Fulfilled res)));
      do p2 <- p_catch p1 (catch_handler self_request l cnt);
      ret_ (RPromise p2)
  end.

Definition _request_body (self_request : option loc → option callback → M ret)
    (options : option loc) (cb : option callback) : M ret :=
  do pe <- gets promisesExist;
  if negb (bool_decide (is_Some cb)) && negb pe then
    throw (JError "Callback must be provided if promises are unavailable")
  else
  match options with
  | None => _handleErr "Please provide valid options object" cb
  | Some l =>
    do d <- deref l;
    let cnt := counter_or_zero d in
    do c <- gets this;
    do early <-
      (if retryLimit c <=? cnt then
         match cb with
         | Some _ => _handleErr "Retry limit reached" cb ;; ret_ None
         | None => ret_ (Some (RPromise (Rejected (JStr "Retry limit reached"))))
         end
       else ret_ None);
    match early with
    | Some r => ret_ r
    | None =>
      do httpOptions <- build_request l;
      dispatch_and_complete self_request l cnt httpOptions cb
    end
  end.

(** [_request], with [fuel] bounding the depth of its recursion. *)
Fixpoint _request (fuel : nat) : option loc → option callback → M ret :=
  match fuel with
  | O => λ _ _, no_result
  | S fuel => _request_body (_request fuel)
  end.

(** ** The endpoint methods (lines 114-323) *)

(** [if (!options) options = {}]. *)
Definition or_empty (options : jsval) : jsval :=
  if negb (truthy options) then JObj ∅ else options.

Definition get_descriptor (a e : string) (q : option (gmap string jsval)) : descriptor :=
  {| api := a; endpoint := e; method := "GET"; query := q; payload := JUndefined;
     headers := None; opt_timeout := JUndefined; counter := None |}.

Definition getCategories_descriptor (options : jsval) : M descriptor :=
  let options := or_empty options in
  do gfyCount <- prop options "gfyCount";
  do count <- prop options "count";
  do cursor <- prop options "cursor";
  do locale <- prop options "locale";
  ret_ (get_descriptor "/reactions" "/populated"
          (Some (<["gfyCount" := js_or gfyCount (JNum 1)]>
                (<["count" := js_or count JNull]>
                (<["cursor" := js_or cursor JNull]>
                (<["locale" := js_or locale JNull]> ∅)))))).

Definition getTrendingCategories_descriptor (options : jsval) : M descriptor :=
  let options := or_empty options in
  do gfyCount <- prop options "gfyCount";
  do cursor <- prop options "cursor";
  do tagName <- prop options "tagName";
  ret_ (get_descriptor "/reactions" "/populated"
          (Some (<["gfyCount" := js_or gfyCount (JNum 1)]>
                (<["cursor" := js_or cursor JNull]>
                (<["tagName" := js_or tagName (JStr "trending")]> ∅))))).

Definition getTrending_descriptor (options : jsval) : M descriptor :=
  let options := or_empty options in
  do count <- prop options "count";
  do cursor <- prop options "cursor";
  do tagName <- prop options "tagName";
  ret_ (get_descriptor "/gfycats" "/trending"
          (Some (<["count" := js_or count (JNum 100)]>
                (<["cursor" := js_or cursor JNull]>
                (<["tagName" := js_or tagName JNull]> ∅))))).

Definition getTrendingTags_descriptor (options : jsval) : M descriptor :=
  ret_ (get_descriptor "/tags" "/trending" None).

Definition getTrendingTagsPopulated_descriptor (options : jsval) : M descriptor :=
  let options := or_empty options in
  do count <- prop options "count";
  do cursor <- prop options "cursor";
  do gfyCount <- prop options "gfyCount";
  ret_ (get_descriptor "/tags" "/trending/populated"
          (Some (<["count" := js_or count (JNum 100)]>
                (<["cursor" := js_or cursor JNull]>
                (<["gfyCount" := js_or gfyCount (JNum 1)]> ∅))))).

Definition search_descriptor (options : jsval) : M descriptor :=
  do search_text <- prop options "search_text";
  do count <- prop options "count";
  do start <- prop options "start";
  do cursor <- prop options "cursor";
  ret_ (get_descriptor "/gfycats" "/search"
          (Some (<["search_text" := search_text]>
                (<["count" := js_or count (JNum 100)]>
                (<["start" := js_or start JNull]>
                (<["cursor" := js_or cursor JNull]> ∅)))))).

Definition searchById_descriptor (options : jsval) : M descriptor :=
  do id <- prop options "id";
  ret_ (get_descriptor "/gfycats" ("/" +:+ to_string id) None).

Definition getRelatedContent_descriptor (options : jsval) : M descriptor :=
  do id <- prop options "id";
  do cursor <- prop options "cursor";
  do count <- prop options "count";
  do from <- prop options "from";
  ret_ (get_descriptor "/gfycats" ("/" +:+ to_string id +:+ "/related")
          (Some (<["cursor" := cursor]>
                (<["count" := count]>
                (<["from" := from]> ∅))))).

Definition artifacts_descriptor (options : jsval) : M descriptor :=
  do uploadKey <- prop options "uploadKey";
  do tags <- prop options "tags";
  ret_ {| api := "/gifartifacts"; endpoint := ""; method := "POST"; query := None;
          payload := JObj (<["uploadKey" := uploadKey]> (<["tags" := tags]> ∅));
          headers := Some (<["Content-Type" := JStr "application/x-www-form-urlencoded"]> ∅);
          opt_timeout := JUndefined; counter := None |}.

Definition stickers_descriptor (options : jsval) : M descriptor :=
  do search_text <- prop options "search_text";
  do cursor <- prop options "cursor";
  do count <- prop options "count";
  ret_ (get_descriptor "/stickers" (if truthy search_text then "/search" else "")
          (Some (<["cursor" := cursor]>
                (<["count" := count]>
                (<["search_text" := search_text]> ∅))))).

(** The methods, by name. *)
Inductive endpoint_method :=
  | getCategories | getTrending | getTrendingCategories | getTrendingTags
  | getTrendingTagsPopulated | search | searchById | getRelatedContent
  | artifacts | stickers.

Definition descriptor_of (m : endpoint_method) : jsval → M descriptor :=
  match m with
  | getCategories => getCategories_descriptor
  | getTrending => getTrending_descriptor
  | getTrendingCategories => getTrendingCategories_descriptor
  | getTrendingTags => getTrendingTags_descriptor
  | getTrendingTagsPopulated => getTrendingTagsPopulated_descriptor
  | search => search_descriptor
  | searchById => searchById_descriptor
  | getRelatedContent => getRelatedContent_descriptor
  | artifacts => artifacts_descriptor
  | stickers => stickers_descriptor
  end.

(** The callback a method hands to [_request]: its own second argument,
    except [stickers], which hands none (line 322). *)
Definition forwarded_callback (m : endpoint_method) (cb : option callback)
    : option callback :=
  match m with
  | stickers => None
  | _ => cb
  end.

(** [client.m(options, callback)]: build the descriptor object and hand it
    to [_request]. *)
Definition call (fuel : nat) (m : endpoint_method) (options : jsval)
    (cb : option callback) : M ret :=
  do d <- descriptor_of m options;
  do l <- alloc d;
  _request fuel (Some l) (forwarded_callback m cb).

(** ** What [build_request] computes, as pure functions of the client and
    the descriptor it finds *)

Definition with_token (c : client) (d : descriptor) : descriptor :=
  if truthy (access_token c)
  then set_headers (<["Authorization" := access_token c]> (default ∅ (headers d))) d
  else d.

Definition with_stripped_query (d : descriptor) : descriptor :=
  match query d with
  | Some q => if negb (Nat.eqb (size q) 0) then set_query (strip_nulls q) d else d
  | None => d
  end.

Definition query_string (d : descriptor) : string :=
  match query d with
  | Some q => if negb (Nat.eqb (size q) 0) then "?" +:+ stringify (strip_nulls q) else ""
  | None => ""
  end.

(** The descriptor object after [build_request] ran on it. *)
Definition prepared (c : client) (d : descriptor) : descriptor :=
  with_stripped_query (with_token c d).

(** The [httpOptions] assembled from it. *)
Definition http_of (c : client) (d : descriptor) : http_options :=
  {| req_headers := headers (with_token c d);
     req_method := method d;
     req_payload := js_or (payload d) JNull;
     url := apiUrl c +:+ api d +:+ endpoint d +:+ query_string d;
     req_timeout := js_or (opt_timeout d) (timeout c) |}.

(** The state once descriptor [l], found as [d], was prepared and handed
    to the transport. *)
Definition dispatched (l : loc) (d : descriptor) (st : state) : state :=
  set_trace (trace st ++ [Dispatch l (http_of (this st) d)])
    (set_heap (<[l := prepared (this st) d]> (heap st)) st).

(** The state once [authenticate({})] allocated its descriptor. *)
Definition authenticating (st : state) : state :=
  set_heap (heap st ++ [oauth_descriptor (this st) JUndefined JUndefined JUndefined])
    (set_trace (trace st ++ [Authenticate]) st).

(** The state once [_setToken(body)] ran, for a body that is an object. *)
Definition token_stored (body : jsval) (st : state) : state :=
  set_this (set_token_type (default JUndefined (get_prop body "token_type"))
              (set_access_token (default JUndefined (get_prop body "access_token"))
                 (this st))) st.

(** The state in which a 401 on descriptor [l] is retried: [l] was
    dispatched, [authenticate({})] built and dispatched its own descriptor,
    the token of [body] was stored, and [l]'s counter was overwritten. *)
Definition before_retry (l : loc) (d : descriptor) (body : jsval) (st : state) : state :=
  let s1 := dispatched l d st in
  let s2 := authenticating s1 in
  let s3 := token_stored body
              (dispatched (length (heap s1))
                 (oauth_descriptor (this s1) JUndefined JUndefined JUndefined) s2) in
  set_heap (<[l := set_counter (counter_or_zero d + 1) (prepared (this st) d)]> (heap s3)) s3.

(** The two calling conventions, with the caller's callback observed. *)
Inductive convention := WithCallback | Awaitable.
Definition callback_of (v : convention) : option callback :=
  match v with
  | WithCallback => Some user_callback
  | Awaitable => None
  end.

(** How many times descriptor [l] was handed to the transport. *)
Definition is_dispatch_of (l : loc) (e : event) : bool :=
  match e with
  | Dispatch l' _ => Nat.eqb l l'
  | _ => false
  end.
Definition attempts (l : loc) (t : list event) : nat :=
  length (List.filter (is_dispatch_of l) t).

(** The client has a credential to authenticate with (line 69). *)
Definition has_credentials (c : client) : bool :=
  truthy (js_or (client_id c) (client_secret c)).

End Orchestrator.

(** ** Specification-side definitions *)

(** How a request that is not retried completes, by convention: the caller's
    callback is invoked once, or the promise settles, with what the transport
    answered. *)
Definition completed (v : convention) (out : outcome) (st : state) : result ret * state :=
  match v, out with
  | WithCallback, TResolve body =>
      (Ok (RVal JUndefined), set_trace (trace st ++ [Callback JNull body]) st)
  | WithCallback, TReject err =>
      (Ok (RVal JUndefined), set_trace (trace st ++ [Callback err JUndefined]) st)
  | Awaitable, TResolve body => (Ok (RPromise (Fulfilled body)), st)
  | Awaitable, TReject err => (Ok (RPromise (Rejected err)), st)
  end.

(** The state in which [_request] starts preparing descriptor [d]: with a
    callback, a descriptor already at the retry limit has had the callback
    invoked with the retry message by then (line 350). *)
Definition entered (v : convention) (d : descriptor) (st : state) : state :=
  match v with
  | WithCallback =>
      if retryLimit (this st) <=? counter_or_zero d
      then set_trace (trace st ++ [Callback (JStr "Retry limit reached") JUndefined]) st
      else st
  | Awaitable => st
  end.

(** What the caller's callback was invoked with, in order. *)
Definition callbacks (t : list event) : list (jsval * jsval) :=
  omap (λ e, match e with Callback err res => Some (err, res) | _ => None end) t.

(** The transport rejected with 401. *)
Definition rejected_401 (out : outcome) : bool :=
  match out with
  | TReject err => is_401 err
  | TResolve _ => false
  end.

(** The defaults the endpoint methods apply to their optional fields: the
    [||] fallbacks of their query mappings (lines 120-242). *)
Definition documented_default (m : endpoint_method) (k : string) : option jsval :=
  match m with
  | getCategories =>
      if String.eqb k "gfyCount" then Some (JNum 1) else None
  | getTrendingCategories =>
      if String.eqb k "gfyCount" then Some (JNum 1)
      else if String.eqb k "tagName" then Some (JStr "trending") else None
  | getTrending =>
      if String.eqb k "count" then Some (JNum 100) else None
  | getTrendingTagsPopulated =>
      if String.eqb k "count" then Some (JNum 100)
      else if String.eqb k "gfyCount" then Some (JNum 1) else None
  | search =>
      if String.eqb k "count" then Some (JNum 100) else None
  | _ => None
  end.

(** Field [k] is omitted from the options of a call to [m]: the options
    mapping lacks it, or (where the method tolerates that, line 115) no
    options mapping is passed at all. *)
Definition field_omitted (m : endpoint_method) (options : jsval) (k : string) : Prop :=
  (∃ o : gmap string jsval, options = JObj o ∧ o !! k = None)
  ∨ (options = JUndefined ∧ m ≠ search).

(** The three cases of the constructor. *)
Inductive configuration := Credentials | Anonymous | Malformed.

Definition classify (options : jsval) : configuration :=
  if hasOwnProperty options "client_id" && hasOwnProperty options "client_secret"
  then Credentials
  else if truthy options then Malformed else Anonymous.

(** What the constructor does in each case. *)
Definition constructed (options : jsval) (st : state) : result client * state :=
  match classify options with
  | Credentials =>
      (Ok {| client_id := default JUndefined (get_prop options "client_id");
             client_secret := default JUndefined (get_prop options "client_secret");
             timeout := js_or (default JUndefined (get_prop options "timeout")) (JNum 30000);
             apiUrl := API_HOSTNAME +:+ API_BASE_PATH st; retryLimit := 2;
             access_token := JUndefined; token_type := JUndefined |}, st)
  | Anonymous =>
      (Ok {| client_id := JUndefined; client_secret := JUndefined; timeout := JUndefined;
             apiUrl := API_HOSTNAME +:+ "/v1test"; retryLimit := 2;
             access_token := JUndefined; token_type := JUndefined |},
       set_base_path "/v1test" (set_trace (trace st ++ [ConsoleError]) st))
  | Malformed =>
      (Throw (JError "Please provide a valid options object with client_id and client_secret."),
       st)
  end.

(** Constructing clients one after the other, in one module instance. *)
Fixpoint construct_all (configs : list jsval) (st : state) : state :=
  match configs with
  | [] => st
  | options :: rest => construct_all rest (GfycatSDK options st).2
  end.

(** ** Concrete collaborators and inputs, for evaluation *)

Module Example.

(** A client as the constructor leaves it, with credentials. *)
Definition credentials : jsval :=
  JObj (<["client_id" := JStr "id"]> (<["client_secret" := JStr "secret"]> ∅)).

Definition client0 : client :=
  {| client_id := JStr "id"; client_secret := JStr "secret"; timeout := JNum 30000;
     apiUrl := "https://api.gfycat.com/v1"; retryLimit := 2;
     access_token := JUndefined; token_type := JUndefined |}.

Definition token_body : jsval :=
  JObj (<["access_token" := JStr "t0k3n"]> (<["token_type" := JStr "bearer"]> ∅)).

Definition gifs : jsval := JObj (<["gfycats" := JStr "..."]> ∅).

(** An encoder that only counts the entries it is given. *)
Definition count_entries (q : gmap string jsval) : string := pretty (size q).

Definition is_token_request (r : http_options) : bool :=
  String.eqb (req_method r) "POST".

(** Every request is answered 401. *)
Definition always_401 : list http_options → http_options → outcome :=
  λ _ _, TReject (JNum 401).

(** Token requests succeed; every other request is answered 401. *)
Definition expired : list http_options → http_options → outcome :=
  λ _ r, if is_token_request r then TResolve token_body else TReject (JNum 401).

(** Token requests succeed; other requests are answered 401 until [k]
    requests were sent, and succeed afterwards. *)
Definition expired_until (k : nat) : list http_options → http_options → outcome :=
  λ h r, if is_token_request r then TResolve token_body
         else if (length h <? k)%nat then TReject (JNum 401) else TResolve gifs.

(** Every request succeeds. *)
Definition healthy : list http_options → http_options → outcome :=
  λ _ r, if is_token_request r then TResolve token_body else TResolve gifs.

(** Every request fails with status 500. *)
Definition broken : list http_options → http_options → outcome :=
  λ _ _, TReject (JNum 500).

Definition state0 : state := initial_state true client0.

(** The descriptor [getTrending()] builds, as the caller of [_request]
    passes it, stored at location 0. *)
Definition trending : descriptor :=
  get_descriptor "/gfycats" "/trending"
    (Some (<["count" := JNum 100]> (<["cursor" := JNull]> (<["tagName" := JNull]> ∅)))).

Definition with_descriptor (d : descriptor) (st : state) : state :=
  set_heap (heap st ++ [d]) st.

(** The same request, already retried up to the limit. *)
Definition exhausted : descriptor := set_counter 2 trending.

Definition token_request : descriptor :=
  oauth_descriptor client0 JUndefined JUndefined JUndefined.

End Example.

(** ** Further specification-side definitions *)

(** The message of line 70. *)
Definition missing_credentials : string :=
  "Please provide client_id and client_secret in options".

(** The options passed to [authenticate] itself carry a credential (line 69). *)
Definition call_credentials (options : jsval) : bool :=
  truthy (js_or (default JUndefined (get_prop (or_empty options) "client_id"))
            (default JUndefined (get_prop (or_empty options) "client_secret"))).

(** The descriptor [authenticate(options)] builds on client [c] (lines 73-82). *)
Definition token_request_of (c : client) (options : jsval) : descriptor :=
  oauth_descriptor c
    (default JUndefined (get_prop (or_empty options) "client_id"))
    (default JUndefined (get_prop (or_empty options) "client_secret"))
    (default JUndefined (get_prop (or_empty options) "grant_type")).

(** The state once [authenticate(options)] allocated that descriptor. *)
Definition authenticating_with (options : jsval) (st : state) : state :=
  set_heap (heap st ++ [token_request_of (this st) options])
    (set_trace (trace st ++ [Authenticate]) st).

(** The methods that start with [if (!options) options = {}]. *)
Definition guards_options (m : endpoint_method) : bool :=
  match m with
  | getCategories | getTrendingCategories | getTrending | getTrendingTags
  | getTrendingTagsPopulated => true
  | _ => false
  end.


(** The new events of a run. *)
Definition since (st st' : state) : list event :=
  drop (length (trace st)) (trace st').

Module Scenario.

(** A client the constructor built without configuration. *)
Definition anonymous : client :=
  {| client_id := JUndefined; client_secret := JUndefined; timeout := JUndefined;
     apiUrl := "https://api.gfycat.com/v1test"; retryLimit := 2;
     access_token := JUndefined; token_type := JUndefined |}.

(** A client holding a token. *)
Definition authenticated : client :=
  set_token_type (JStr "bearer") (set_access_token (JStr "t0k3n") Example.client0).

(** The descriptor [artifacts] builds. *)
Definition upload : descriptor :=
  {| api := "/gifartifacts"; endpoint := ""; method := "POST"; query := None;
     payload := JObj (<["uploadKey" := JStr "key"]> (<["tags" := JUndefined]> ∅));
     headers := Some (<["Content-Type" := JStr "application/x-www-form-urlencoded"]> ∅);
     opt_timeout := JUndefined; counter := None |}.

(** The descriptor [getRelatedContent({id: 'abc'})] builds: every query
    value is undefined. *)
Definition related : descriptor :=
  get_descriptor "/gfycats" "/abc/related"
    (Some (<["cursor" := JUndefined]> (<["count" := JUndefined]> (<["from" := JUndefined]> ∅)))).

(** Credentials given at call time. *)
Definition call_time : jsval :=
  JObj (<["client_id" := JStr "other"]> (<["client_secret" := JStr "s3cret"]> ∅)).


(** Credentials with a timeout. *)
Definition patient : jsval :=
  JObj (<["client_id" := JStr "id"]> (<["client_secret" := JStr "secret"]>
       (<["timeout" := JNum 5000]> ∅))).

(** The token endpoint is down (500) and every other request is answered 401. *)
Definition outage : list http_options → http_options → outcome :=
  λ _ r, if Example.is_token_request r then TReject (JNum 500) else TReject (JNum 401).

End Scenario.

(** ** The documentation's defaults *)

(** The defaults the documentation gives for optional fields: those of
    [documented_default], and the offset of [search], which "defaults to 0"
    (line 231). *)
Definition described_default (m : endpoint_method) (k : string) : option jsval :=
  match m with
  | search => if String.eqb k "start" then Some (JNum 0) else documented_default m k
  | _ => documented_default m k
  end.

(** What a method forwards for an omitted field whose described default is
    [v]: the default, except for the offset of [search] (line 243). *)
Definition forwarded_when_omitted (m : endpoint_method) (k : string) (v : jsval) : jsval :=
  match m with
  | search => if String.eqb k "start" then JNull else v
  | _ => v
  end.

(** ** Using a client *)

(** One use of a client: an endpoint method or [authenticate], called with
    the caller's callback or awaited. *)
Inductive use :=
  | CallMethod (m : endpoint_method) (options : jsval) (v : convention)
  | CallAuthenticate (options : jsval) (v : convention).

Definition run_use (transport : list http_options → http_options → outcome)
    (stringify : gmap string jsval → string) (fuel : nat) (u : use) : M ret :=
  match u with
  | CallMethod m options v => call transport stringify fuel m options (callback_of v)
  | CallAuthenticate options v =>
      authenticate (_request transport stringify fuel) options (callback_of v)
  end.

(** Uses of one client, one after the other: what a use leaves behind (a
    stored token, the descriptor objects, the requests sent) is what the
    next one finds. *)
Fixpoint use_all (transport : list http_options → http_options → outcome)
    (stringify : gmap string jsval → string) (fuel : nat)
    (us : list use) (st : state) : state :=
  match us with
  | [] => st
  | u :: rest =>
      use_all transport stringify fuel rest (run_use transport stringify fuel u st).2
  end.

(** What happens in a module instance: clients are constructed, and clients
    are used. *)
Inductive activity :=
  | Construct (config : jsval)
  | Use (c : client) (u : use).

Fixpoint module_after (transport : list http_options → http_options → outcome)
    (stringify : gmap string jsval → string) (fuel : nat)
    (acts : list activity) (st : state) : state :=
  match acts with
  | [] => st
  | Construct config :: rest =>
      module_after transport stringify fuel rest (GfycatSDK config st).2
  | Use c u :: rest =>
      module_after transport stringify fuel rest
        (run_use transport stringify fuel u (set_this c st)).2
  end.

(** The request goes to a URL built on [prefix] (line 381): the prefix,
    followed by the api, endpoint and query string of a descriptor. *)
Definition built_on (stringify : gmap string jsval → string)
    (prefix : string) (r : http_options) : Prop :=
  ∃ d, url r = prefix +:+ api d +:+ endpoint d +:+ query_string stringify d.

(** The descriptor has no timeout of its own. *)
Definition no_own_timeout (d : descriptor) : Prop := opt_timeout d = JUndefined.

(** The timeout the constructor stores for a configuration (lines 44, 46). *)
Definition configured_timeout (config : jsval) : jsval :=
  match classify config with
  | Anonymous => JUndefined
  | _ => js_or (default JUndefined (get_prop config "timeout")) (JNum 30000)
  end.

(** A state predicate for invariants of use: the module's prefix is [base],
    the client satisfies [Cl], every descriptor object satisfies [De], and
    every request sent since the trace had length [n] satisfies [Rq]. *)
Definition maintained (base : string) (n : nat) (Cl : client → Prop)
    (De : descriptor → Prop) (Rq : http_options → Prop) (st : state) : Prop :=
  API_BASE_PATH st = base
  ∧ Cl (this st)
  ∧ Forall De (heap st)
  ∧ (n ≤ length (trace st))%nat
  ∧ Forall Rq (sent (drop n (trace st))).

(** A computation keeps the invariant, and what it returns satisfies [P]. *)
Definition keeps {A} (base : string) (n : nat) (Cl : client → Prop)
    (De : descriptor → Prop) (Rq : http_options → Prop)
    (P : A → Prop) (m : M A) : Prop :=
  ∀ st, maintained base n Cl De Rq st →
        maintained base n Cl De Rq (m st).2 ∧ ∀ a, (m st).1 = Ok a → P a.

Definition callback_keeps (base : string) (n : nat) (Cl : client → Prop)
    (De : descriptor → Prop) (Rq : http_options → Prop) (cb : option callback) : Prop :=
  ∀ f, cb = Some f → ∀ err res, keeps base n Cl De Rq (λ _ : ret, True) (f err res).

(** * Properties *)

Lemma bind_eq {A B} (m : M A) (k : A → M B) st a st' :
  m st = (Ok a, st') → bind m k st = k a st'.
Proof. unfold bind. by intros ->. Qed.

Lemma bind_assoc {A B C} (m : M A) (k : A → M B) (g : B → M C) st :
  bind (bind m k) g st = bind m (λ a, bind (k a) g) st.
Proof. unfold bind. by destruct (m st) as [[]]. Qed.

Lemma settle_val m st v st' :
  m st = (Ok (RVal v), st') → settle m st = (Ok (Fulfilled v), st').
Proof. unfold settle. by intros ->. Qed.

Lemma settle_promise m st p st' :
  m st = (Ok (RPromise p), st') → settle m st = (Ok p, st').
Proof. unfold settle. by intros ->. Qed.

Lemma settle_throw m st e st' :
  m st = (Throw e, st') → settle m st = (Ok (Rejected e), st').
Proof. unfold settle. by intros ->. Qed.

Lemma settle_bind {A} (m : M A) k st a st' :
  m st = (Ok a, st') → settle (bind m k) st = settle (k a) st'.
Proof. unfold settle, bind. by intros ->. Qed.

Lemma p_catch_rethrow p st :
  p_catch p (λ err, ret_ (RPromise (Rejected err))) st = (Ok p, st).
Proof. by destruct p. Qed.

Lemma bind_cong {A B} (m m' : M A) (k : A → M B) st st' :
  m st = m' st' → bind m k st = bind m' k st'.
Proof. unfold bind. by intros ->. Qed.

Lemma bind_absorb {A} (m : M A) (k : A → M A) (x : A) st :
  bind m (λ _, ret_ x) st = m st →
  (∀ a s, k a s = (Ok x, s)) →
  bind m k st = m st.
Proof.
  unfold bind, ret_. intros H Hk. destruct (m st) as [[a| |] s']; try done.
  by rewrite Hk.
Qed.

Lemma settle_cong (m m' : M ret) st st' :
  m st = m' st' → settle m st = settle m' st'.
Proof. unfold settle. by intros ->. Qed.

Lemma deref_eq l d st : heap st !! l = Some d → deref l st = (Ok d, st).
Proof. unfold deref. by intros ->. Qed.

Lemma update_eq l f d st :
  heap st !! l = Some d →
  update l f st = (Ok tt, set_heap (<[l := f d]> (heap st)) st).
Proof. intros H. unfold update. by rewrite (bind_eq _ _ _ _ _ (deref_eq _ _ _ H)). Qed.

(** One step of a computation whose first action is a primitive. *)
Ltac mstep :=
  lazymatch goal with
  | |- context [bind (gets ?f) ?k ?st] =>
      change (bind (gets f) k st) with (k (f st) st); cbv beta
  | |- context [bind (ret_ ?a) ?k ?st] =>
      change (bind (ret_ a) k st) with (k a st); cbv beta
  | |- context [bind (log ?e) ?k ?st] =>
      change (bind (log e) k st) with (k tt (set_trace (trace st ++ [e]) st)); cbv beta
  | |- context [bind (modify ?f) ?k ?st] =>
      change (bind (modify f) k st) with (k tt (f st)); cbv beta
  | |- context [bind (dispatch ?tr ?l ?r) ?k ?st] =>
      change (bind (dispatch tr l r) k st)
        with (k (tr (sent (trace st)) r) (set_trace (trace st ++ [Dispatch l r]) st));
      cbv beta
  | |- context [bind (alloc ?d) ?k ?st] =>
      change (bind (alloc d) k st)
        with (k (length (heap st)) (set_heap (heap st ++ [d]) st)); cbv beta
  end.

(** Projections of an updated state. *)
Ltac sproj :=
  cbn [this heap trace promisesExist API_BASE_PATH
       set_trace set_heap set_this set_base_path] in *.

Section Properties.

Variable transport : list http_options → http_options → outcome.
Variable stringify : gmap string jsval → string.

Lemma build_request_eq l d st :
  heap st !! l = Some d →
  build_request stringify l st
  = (Ok (http_of stringify (this st) d),
     set_heap (<[l := prepared (this st) d]> (heap st)) st).
Proof.
  intros Hl.
  assert (Hlt : (l < length (heap st))%nat) by (eapply lookup_lt_Some; eauto).
  assert (Htok : ∀ s, truthy (JStr ("Bearer " +:+ s)) = true) by done.
  unfold build_request, prepared, http_of, with_token, with_stripped_query, query_string.
  destruct st as [bp pe c h t]; simpl in *.
  unfold bind, gets, update, bind, deref, modify, ret_, set_heap; simpl.
  destruct (truthy (access_token c)); simpl;
    rewrite Hl; simpl; rewrite ?list_lookup_insert_eq by done; simpl;
    destruct (query d) as [q|]; simpl;
    try (destruct (size q =? 0)%nat; simpl);
    rewrite ?Hl, ?list_lookup_insert_eq by done; simpl;
    rewrite ?Hl, ?list_lookup_insert_eq by (by rewrite ?length_insert); simpl;
    rewrite ?list_insert_insert_eq; try done.
  all: try (by rewrite (list_insert_id h l)).
  all: try (by rewrite (list_insert_id (<[l:=_]> h) l) at 2;
              [|by rewrite list_lookup_insert_eq]).
  all: try (by rewrite (list_insert_id (<[l:=_]> h) l) at 1;
              [|by rewrite list_lookup_insert_eq]).
Qed.


Lemma request_body_dispatch rec l d st cb :
  heap st !! l = Some d →
  counter_or_zero d < retryLimit (this st) →
  (cb = None → promisesExist st = true) →
  _request_body transport stringify rec (Some l) cb st
  = dispatch_and_complete transport rec l (counter_or_zero d)
      (http_of stringify (this st) d) cb
      (set_heap (<[l := prepared (this st) d]> (heap st)) st).
Proof.
  intros Hl Hc Hp. unfold _request_body.
  assert (Hchk : negb (bool_decide (is_Some cb)) && negb (promisesExist st) = false).
  { destruct cb as [f|]; [done|]. by rewrite Hp. }
  unfold bind at 1. unfold gets at 1. rewrite Hchk.
  rewrite (bind_eq _ _ _ _ _ (deref_eq _ _ _ Hl)).
  unfold bind at 1. unfold gets at 1.
  replace (retryLimit (this st) <=? counter_or_zero d) with false by lia.
  unfold bind at 1. unfold ret_ at 1.
  by rewrite (bind_eq _ _ _ _ _ (build_request_eq _ _ _ Hl)).
Qed.

(** With the caller's callback, [_request] on a descriptor returns
    undefined whenever it returns. *)
Lemma request_callback_returns rec l st :
  (_request_body transport stringify rec (Some l) (Some user_callback) ;;
   ret_ (RVal JUndefined)) st
  = _request_body transport stringify rec (Some l) (Some user_callback) st.
Proof.
  unfold _request_body, dispatch_and_complete.
  unfold bind, gets, ret_. simpl.
  repeat (case_match; simplify_eq/=; try done).
Qed.

(** Without a callback, and with promises available, [_request] returns
    a promise whenever it returns. *)
Lemma request_promise_returns rec o st :
  promisesExist st = true →
  (_request_body transport stringify rec o None st).1 = NoResult
  ∨ ∃ p, (_request_body transport stringify rec o None st).1 = Ok (RPromise p).
Proof.
  intros Hp. unfold _request_body, dispatch_and_complete.
  destruct o as [l|]; unfold bind, gets, ret_, throw, _handleErr; simpl;
    rewrite Hp; simpl; unfold bind, gets, ret_, p_then, p_catch, settle; rewrite ?Hp;
    repeat (case_match; simplify_eq/=; try done); eauto.
  all: match goal with
       | H0 : deref ?l ?st = _ |- _ =>
           unfold deref in H0; destruct (heap st !! l) eqn:Hl; simplify_eq
       end.
  match goal with
  | H2 : build_request _ _ _ = _ |- _ =>
      rewrite (build_request_eq _ _ _ Hl) in H2; simplify_eq
  end.
Qed.

Lemma prop_eq body k :
  nullish body = false →
  prop body k = ret_ (default JUndefined (get_prop body k)).
Proof. by destruct body. Qed.

Lemma setToken_eq body st :
  nullish body = false →
  _setToken body st = (Ok tt, token_stored body st).
Proof.
  intros Hb. unfold _setToken. rewrite !(prop_eq _ _ Hb). done.
Qed.

Lemma sent_app t1 t2 : sent (t1 ++ t2)%list = (sent t1 ++ sent t2)%list.
Proof. unfold sent. apply omap_app. Qed.

Lemma api_prepared c d : api (prepared c d) = api d.
Proof.
  unfold prepared, with_stripped_query, with_token.
  repeat (case_match; simpl; try done).
Qed.

(** [authenticate({}, f)] whose token request succeeds. *)
Lemma authenticate_success_callback n st f body :
  has_credentials (this st) = true →
  0 < retryLimit (this st) →
  transport (sent (trace st))
    (http_of stringify (this st)
       (oauth_descriptor (this st) JUndefined JUndefined JUndefined))
  = TResolve body →
  nullish body = false →
  authenticate (_request transport stringify (S n)) (JObj ∅) (Some f) st
  = (f JNull body ;; ret_ (RVal JUndefined) ;; ret_ (RVal JUndefined))
      (token_stored body
         (dispatched stringify (length (heap st))
            (oauth_descriptor (this st) JUndefined JUndefined JUndefined)
            (authenticating st))).
Proof.
  intros Hcred Hlim Hres Hbody. unfold authenticate.
  unfold has_credentials in Hcred.
  do 2 mstep. cbn [truthy negb prop get_prop]. rewrite !lookup_empty. cbn [default].
  do 2 mstep. sproj. rewrite Hcred. cbn [negb andb]. do 2 mstep. sproj.
  change (_request transport stringify (S n))
    with (_request_body transport stringify (_request transport stringify n)).
  rewrite (request_body_dispatch _ _
             (oauth_descriptor (this st) JUndefined JUndefined JUndefined)).
  2:{ sproj. by apply list_lookup_middle. }
  2:{ sproj. done. }
  2:{ done. }
  unfold dispatch_and_complete. sproj.
  mstep. sproj. rewrite sent_app, app_nil_r, Hres.
  unfold authenticate_callback. cbn [truthy negb].
  rewrite !bind_assoc.
  rewrite (bind_eq _ _ _ _ _ (setToken_eq _ _ Hbody)).
  reflexivity.
Qed.

(** [authenticate({})] whose token request succeeds, awaited. *)
Lemma authenticate_success_promise n st body :
  promisesExist st = true →
  has_credentials (this st) = true →
  0 < retryLimit (this st) →
  transport (sent (trace st))
    (http_of stringify (this st)
       (oauth_descriptor (this st) JUndefined JUndefined JUndefined))
  = TResolve body →
  nullish body = false →
  authenticate (_request transport stringify (S n)) (JObj ∅) None st
  = (Ok (RPromise (Fulfilled JUndefined)),
     token_stored body
       (dispatched stringify (length (heap st))
          (oauth_descriptor (this st) JUndefined JUndefined JUndefined)
          (authenticating st))).
Proof.
  intros Hp Hcred Hlim Hres Hbody. unfold authenticate.
  unfold has_credentials in Hcred.
  do 2 mstep. cbn [truthy negb prop get_prop]. rewrite !lookup_empty. cbn [default].
  do 2 mstep. sproj. rewrite Hcred. cbn [negb andb]. do 2 mstep. sproj.
  change (_request transport stringify (S n))
    with (_request_body transport stringify (_request transport stringify n)).
  erewrite bind_eq; cycle 1.
  { rewrite (request_body_dispatch _ _
               (oauth_descriptor (this st) JUndefined JUndefined JUndefined));
      [|sproj; by apply list_lookup_middle|sproj; done|done].
    unfold dispatch_and_complete. sproj.
    mstep. sproj. rewrite sent_app, app_nil_r, Hres.
    reflexivity. }
  cbv beta. cbn [as_promise]. mstep. cbn [p_then].
  erewrite bind_eq; cycle 1.
  { apply settle_val. by rewrite (bind_eq _ _ _ _ _ (setToken_eq _ _ Hbody)). }
  reflexivity.
Qed.


(** A 401 on an operation, followed by a successful re-authentication:
    [_request] runs again on the same descriptor object [l], in the state
    [before_retry]. *)
Lemma retry_step n l d st conv body :
  heap st !! l = Some d →
  String.eqb (api d) "/oauth" = false →
  0 ≤ counter_or_zero d < retryLimit (this st) →
  has_credentials (this st) = true →
  (conv = Awaitable → promisesExist st = true) →
  transport (sent (trace st)) (http_of stringify (this st) d) = TReject (JNum 401) →
  transport (sent (trace st) ++ [http_of stringify (this st) d])%list
    (http_of stringify (this st)
       (oauth_descriptor (this st) JUndefined JUndefined JUndefined))
  = TResolve body →
  nullish body = false →
  _request transport stringify (S (S n)) (Some l) (callback_of conv) st
  = _request transport stringify (S n) (Some l) (callback_of conv)
      (before_retry stringify l d body st).
Proof.
  intros Hl Hapi Hcnt Hcred Hp H401 Hauth Hbody.
  assert (Hlt : (l < length (heap st))%nat) by (eapply lookup_lt_Some; eauto).
  change (_request transport stringify (S (S n)))
    with (_request_body transport stringify (_request transport stringify (S n))).
  rewrite (request_body_dispatch _ _ d); [|done|lia|by destruct conv; auto].
  unfold dispatch_and_complete.
  assert (Hl1 : heap (dispatched stringify l d st) !! l = Some (prepared (this st) d)).
  { unfold dispatched. sproj. by apply list_lookup_insert_eq. }
  assert (Hs1 : sent (trace (dispatched stringify l d st))
                = (sent (trace st) ++ [http_of stringify (this st) d])%list).
  { unfold dispatched. sproj. by rewrite sent_app. }
  set (s3 := token_stored body
               (dispatched stringify (length (heap (dispatched stringify l d st)))
                  (oauth_descriptor (this st) JUndefined JUndefined JUndefined)
                  (authenticating (dispatched stringify l d st)))).
  assert (Hl3 : heap s3 !! l = Some (prepared (this st) d)).
  { unfold s3, token_stored, dispatched, authenticating. sproj.
    rewrite length_insert.
    rewrite list_lookup_insert_ne by lia.
    rewrite lookup_app_l by (by rewrite length_insert).
    by apply list_lookup_insert_eq. }
  assert (Hlim : 0 < retryLimit (this st)) by lia.
  destruct conv; cbn [callback_of].
  - mstep. sproj. rewrite H401.
    change (set_trace _ _) with (dispatched stringify l d st).
    unfold reject_callback.
    rewrite !bind_assoc.
    rewrite (bind_eq _ _ _ _ _ (deref_eq _ _ _ Hl1)).
    rewrite api_prepared, Hapi.
    change (is_401 (JNum 401) && negb false) with true. cbv iota.
    rewrite !bind_assoc.
    erewrite bind_cong; cycle 1.
    { apply (authenticate_success_callback _ _ _ body); try done.
      by rewrite Hs1. }
    fold s3. unfold retry_callback. cbn [truthy].
    rewrite !bind_assoc.
    rewrite (bind_eq _ _ _ _ _ (update_eq _ _ _ _ Hl3)).
    apply (bind_absorb _ _ (RVal JUndefined)); [|done].
    apply request_callback_returns.
  - mstep. sproj. rewrite H401.
    change (set_trace _ _) with (dispatched stringify l d st).
    cbn [p_then]. mstep. cbn [p_catch].
    assert (Hp1 : promisesExist (before_retry stringify l d body st) = true)
      by (apply Hp; done).
    assert (Hshape := request_promise_returns (_request transport stringify n)
                        (Some l) _ Hp1).
    change (_request transport stringify (S n))
      with (_request_body transport stringify (_request transport stringify n)).
    erewrite bind_cong; cycle 1.
    { unfold catch_handler.
      rewrite (settle_bind _ _ _ _ _ (deref_eq _ _ _ Hl1)).
      rewrite api_prepared, Hapi.
      change (is_401 (JNum 401) && negb false) with true. cbv iota.
      erewrite settle_bind; cycle 1.
      { apply (authenticate_success_promise _ _ body);
          [by apply Hp|done|done|by rewrite Hs1|done]. }
      fold s3. cbn [as_promise].
      erewrite settle_bind by reflexivity.
      cbn [p_then].
      apply settle_cong, bind_cong.
      rewrite (settle_bind _ _ _ _ _ (update_eq _ _ _ _ Hl3)).
      reflexivity. }
    change (set_heap _ s3) with (before_retry stringify l d body st).
    unfold bind, settle.
    destruct (_request_body transport stringify (_request transport stringify n)
                (Some l) None (before_retry stringify l d body st)) as [r st'].
    simpl in Hshape. destruct Hshape as [-> | [p ->]]; [done|].
    by rewrite p_catch_rethrow.
Qed.

(** ** The query string *)

(** C6. Whatever query mapping the descriptor carries, the query string the
    orchestrator builds is the encoding of a mapping [kept] that has no key
    whose value is null or undefined and that keeps every other entry of the
    input, zero and the empty string included. *)
Theorem query_string_omits_exactly_nulls l d q st :
  heap st !! l = Some d →
  query d = Some q →
  ∃ r st' kept,
    build_request stringify l st = (Ok r, st')
    ∧ url r = apiUrl (this st) +:+ api d +:+ endpoint d
              +:+ (if Nat.eqb (size q) 0 then "" else "?" +:+ stringify kept)
    ∧ (∀ k v, kept !! k = Some v ↔ q !! k = Some v ∧ v ≠ JNull ∧ v ≠ JUndefined)
    ∧ (∀ k, q !! k = Some (JNum 0) → kept !! k = Some (JNum 0))
    ∧ (∀ k, q !! k = Some (JStr "") → kept !! k = Some (JStr "")).
Proof.
  intros Hl Hq. eexists _, _, (strip_nulls q).
  split; [apply (build_request_eq _ _ _ Hl)|].
  split.
  { cbn [url http_of]. unfold query_string. rewrite Hq.
    by destruct (Nat.eqb (size q) 0). }
  unfold strip_nulls.
  assert (Hchar : ∀ k v, filter (λ kv, nullish kv.2 = false) q !! k = Some v
                         ↔ q !! k = Some v ∧ v ≠ JNull ∧ v ≠ JUndefined).
  { intros k v. rewrite map_lookup_filter_Some. cbn [snd].
    split.
    - intros [Hk Hv]. split; [done|]. by destruct v.
    - intros (Hk & Hn & Hu). split; [done|]. by destruct v. }
  split; [done|].
  split; intros k Hk; by apply Hchar.
Qed.

End Properties.

Lemma query_string_omits_exactly_nulls_witness :
  ∃ r st' kept,
    build_request Example.count_entries 0%nat
      (Example.with_descriptor Example.trending Example.state0) = (Ok r, st')
    ∧ url r = "https://api.gfycat.com/v1/gfycats/trending?" +:+ Example.count_entries kept
    ∧ kept !! "count" = Some (JNum 100)
    ∧ kept !! "cursor" = None.
Proof.
  destruct (query_string_omits_exactly_nulls Example.count_entries 0%nat Example.trending
              (<["count" := JNum 100]> (<["cursor" := JNull]> (<["tagName" := JNull]> ∅)))
              (Example.with_descriptor Example.trending Example.state0))
    as (r & st' & kept & Hrun & Hurl & Hchar & _); [reflexivity|reflexivity|].
  exists r, st', kept. split; [exact Hrun|]. split; [exact Hurl|]. split.
  - apply Hchar. split; [reflexivity|]. split; discriminate.
  - destruct (kept !! "cursor") as [v|] eqn:Hv; [|reflexivity].
    apply Hchar in Hv. destruct Hv as (Hq & Hn & _).
    vm_compute in Hq. congruence.
Defined.

(** ** Defaults of the endpoint methods *)

(** The defaults the methods code with [||]: an omitted field that has one
    is forwarded with it: count 100 for [getTrending], gfyCount 1 for
    [getCategories], and likewise for the others. *)
Lemma omitted_fields_get_documented_defaults m k v options st :
  documented_default m k = Some v →
  field_omitted m options k →
  ∃ d q, descriptor_of m options st = (Ok d, st)
         ∧ query d = Some q ∧ q !! k = Some v.
Proof.
  intros Hd Ho.
  assert (Hund : get_prop (or_empty JUndefined) k = Some JUndefined) by done.
  destruct m; cbn [documented_default] in Hd; try discriminate;
    repeat match type of Hd with
           | context [String.eqb k ?s] => destruct (String.eqb_spec k s); subst
           end;
    simplify_eq;
    (destruct Ho as [(o & -> & Hk) | [-> Hm]]; [|try done]);
    (eexists _, _; split; [reflexivity|]; split; [reflexivity|]);
    cbn [get_prop]; rewrite ?Hk; try rewrite !lookup_empty; cbn [default js_or truthy];
    by simplify_map_eq.
Qed.

(** ** Construction *)

Lemma GfycatSDK_eq options st :
  options ≠ JNull → GfycatSDK options st = constructed options st.
Proof.
  intros Hnull. unfold GfycatSDK, constructed, classify.
  destruct options as [| |b|n|s|m|msg|]; try done.
  - by destruct b.
  - cbn [truthy]. by destruct (n =? 0).
  - cbn [truthy]. by destruct (String.eqb s "").
  - cbn [typeof_object truthy]. mstep.
    by destruct (hasOwnProperty (JObj m) "client_id"
                 && hasOwnProperty (JObj m) "client_secret").
Qed.

(** [typeof null] is 'object': on null, line 41 raises a TypeError. *)
Lemma GfycatSDK_null st : GfycatSDK JNull st = (Throw JTypeError, st).
Proof. reflexivity. Qed.

Lemma null_or_not (v : jsval) : v = JNull ∨ v ≠ JNull.
Proof. destruct v; auto. Qed.

Lemma base_path_sticky options st :
  API_BASE_PATH st = "/v1test" → API_BASE_PATH (GfycatSDK options st).2 = "/v1test".
Proof.
  intros Hst. destruct (null_or_not options) as [->|Hn]; [done|].
  rewrite (GfycatSDK_eq _ _ Hn). unfold constructed.
  by destruct (classify options).
Qed.

Lemma construct_all_sticky configs st :
  API_BASE_PATH st = "/v1test" → API_BASE_PATH (construct_all configs st) = "/v1test".
Proof.
  revert st. induction configs as [|o os IH]; intros st Hst; [done|].
  cbn [construct_all]. by apply IH, base_path_sticky.
Qed.




(** ** Completion, re-authentication and retry *)

Section Retry.

Variable transport : list http_options → http_options → outcome.
Variable stringify : gmap string jsval → string.

(** Line 351: without a callback, a descriptor at the retry limit is rejected
    at once and not dispatched. *)
Lemma retry_limit_without_callback_is_terminal n l d st :
  promisesExist st = true →
  heap st !! l = Some d →
  retryLimit (this st) ≤ counter_or_zero d →
  _request transport stringify (S n) (Some l) None st
  = (Ok (RPromise (Rejected (JStr "Retry limit reached"))), st).
Proof.
  intros Hp Hl Hc.
  change (_request transport stringify (S n))
    with (_request_body transport stringify (_request transport stringify n)).
  unfold _request_body. mstep. rewrite Hp.
  change (negb (bool_decide (is_Some None)) && negb true) with false. cbv iota.
  rewrite (bind_eq _ _ _ _ _ (deref_eq _ _ _ Hl)). mstep.
  replace (retryLimit (this st) <=? counter_or_zero d) with true by lia.
  by mstep.
Qed.

(** Line 350: with the caller's callback, a descriptor at the retry limit is
    prepared and dispatched after the callback was told so. *)
Lemma request_body_at_limit rec l d st :
  heap st !! l = Some d →
  retryLimit (this st) ≤ counter_or_zero d →
  _request_body transport stringify rec (Some l) (Some user_callback) st
  = dispatch_and_complete transport rec l (counter_or_zero d)
      (http_of stringify (this st) d) (Some user_callback)
      (set_heap (<[l := prepared (this st) d]> (heap st))
         (set_trace (trace st ++ [Callback (JStr "Retry limit reached") JUndefined]) st)).
Proof.
  intros Hl Hc. unfold _request_body. mstep.
  change (negb (bool_decide (is_Some (Some user_callback))) && _) with false. cbv iota.
  rewrite (bind_eq _ _ _ _ _ (deref_eq _ _ _ Hl)). mstep.
  replace (retryLimit (this st) <=? counter_or_zero d) with true by lia.
  unfold _handleErr, user_callback. rewrite !bind_assoc. do 3 mstep. cbv iota.
  erewrite bind_eq by (apply (build_request_eq stringify l d); sproj; exact Hl).
  reflexivity.
Qed.

Lemma dispatch_completes_directly rec l d cnt r conv out s :
  heap s !! l = Some d →
  transport (sent (trace s)) r = out →
  api d = "/oauth" ∨ rejected_401 out = false →
  dispatch_and_complete transport rec l cnt r (callback_of conv) s
  = completed conv out (set_trace (trace s ++ [Dispatch l r]) s).
Proof.
  intros Hl Hout Hno. unfold dispatch_and_complete.
  assert (Hcond : ∀ e, out = TReject e →
            is_401 e && negb (String.eqb (api d) "/oauth") = false).
  { intros e ->. destruct Hno as [-> | He].
    - by rewrite andb_false_r.
    - cbn [rejected_401] in He. by rewrite He. }
  assert (Hl1 : heap (set_trace (trace s ++ [Dispatch l r]) s) !! l = Some d) by done.
  destruct conv; cbn [callback_of]; mstep; rewrite Hout;
    destruct out as [body|e]; try reflexivity.
  - unfold reject_callback. rewrite !bind_assoc.
    rewrite (bind_eq _ _ _ _ _ (deref_eq _ _ _ Hl1)).
    by rewrite (Hcond e).
  - cbn [p_then]. mstep. cbn [p_catch].
    erewrite bind_eq; [reflexivity|].
    apply settle_promise. unfold catch_handler.
    rewrite (bind_eq _ _ _ _ _ (deref_eq _ _ _ Hl1)).
    by rewrite (Hcond e).
Qed.

Lemma request_completes_directly n l d st conv out :
  heap st !! l = Some d →
  (conv = Awaitable →
   promisesExist st = true ∧ counter_or_zero d < retryLimit (this st)) →
  transport (sent (trace st)) (http_of stringify (this st) d) = out →
  api d = "/oauth" ∨ rejected_401 out = false →
  _request transport stringify (S n) (Some l) (callback_of conv) st
  = completed conv out (dispatched stringify l d (entered conv d st)).
Proof.
  intros Hl Hp Hout Hno.
  assert (Hlt : (l < length (heap st))%nat) by (eapply lookup_lt_Some; eauto).
  assert (Hno' : api (prepared (this st) d) = "/oauth" ∨ rejected_401 out = false)
    by (by rewrite api_prepared).
  change (_request transport stringify (S n))
    with (_request_body transport stringify (_request transport stringify n)).
  destruct conv; cbn [entered].
  - destruct (Z.leb_spec (retryLimit (this st)) (counter_or_zero d)) as [Hle|Hgt].
    + rewrite (request_body_at_limit _ _ d) by done.
      rewrite (dispatch_completes_directly _ _ (prepared (this st) d) _ _ WithCallback out);
        [done| |sproj; by rewrite sent_app, app_nil_r|done].
      sproj. by apply list_lookup_insert_eq.
    + rewrite (request_body_dispatch _ _ _ _ d) by done.
      rewrite (dispatch_completes_directly _ _ (prepared (this st) d) _ _ WithCallback out);
        [done| |done|done].
      sproj. by apply list_lookup_insert_eq.
  - destruct (Hp eq_refl) as [Hpe Hgt].
    rewrite (request_body_dispatch _ _ _ _ d) by done.
    rewrite (dispatch_completes_directly _ _ (prepared (this st) d) _ _ Awaitable out);
      [done| |done|done].
    sproj. by apply list_lookup_insert_eq.
Qed.

(** C8. A request that the transport fails with 401 and whose descriptor
    targets the authentication endpoint completes with that 401, handed on
    unchanged, after its single dispatch: [authenticate] is not entered and
    nothing is retried.  The same holds of every dispatched request whose
    failure is not a 401, or that succeeds: re-authentication happens only
    for a 401 on an operation other than authentication. *)
Theorem only_operation_401_triggers_reauthentication n l d st conv out :
  heap st !! l = Some d →
  (conv = Awaitable →
   promisesExist st = true ∧ counter_or_zero d < retryLimit (this st)) →
  transport (sent (trace st)) (http_of stringify (this st) d) = out →
  api d = "/oauth" ∨ rejected_401 out = false →
  let run := _request transport stringify (S n) (Some l) (callback_of conv) st in
  run = completed conv out (dispatched stringify l d (entered conv d st))
  ∧ trace run.2
    = (trace (entered conv d st) ++ Dispatch l (http_of stringify (this st) d)
         :: match conv, out with
            | WithCallback, TResolve body => [Callback JNull body]
            | WithCallback, TReject err => [Callback err JUndefined]
            | Awaitable, _ => []
            end)%list
  ∧ length (heap run.2) = length (heap st)
  ∧ this run.2 = this st.
Proof.
  intros Hl Hp Hout Hno run. unfold run.
  rewrite (request_completes_directly n l d st conv out) by done.
  split; [done|].
  assert (Hthis : this (entered conv d st) = this st)
    by (unfold entered; by repeat case_match).
  assert (Hheap : heap (entered conv d st) = heap st)
    by (unfold entered; by repeat case_match).
  destruct conv, out; cbn [completed snd]; unfold dispatched; sproj;
    rewrite ?length_insert, <- ?app_assoc, ?Hthis, ?Hheap; done.
Qed.

End Retry.

Lemma only_operation_401_triggers_reauthentication_witness :
  _request Example.always_401 Example.count_entries 1%nat (Some 0%nat) None
    (Example.with_descriptor Example.token_request Example.state0)
  = (Ok (RPromise (Rejected (JNum 401))),
     dispatched Example.count_entries 0%nat Example.token_request
       (Example.with_descriptor Example.token_request Example.state0)).
Proof.
  refine (proj1 (only_operation_401_triggers_reauthentication
                   Example.always_401 Example.count_entries 0%nat 0%nat Example.token_request
                   (Example.with_descriptor Example.token_request Example.state0)
                   Awaitable (TReject (JNum 401)) _ _ _ _));
    [reflexivity|split; reflexivity|reflexivity|left; reflexivity].
Defined.

Section Exhaustion.

Variable transport : list http_options → http_options → outcome.
Variable stringify : gmap string jsval → string.

Lemma before_retry_trace l d body st :
  trace (before_retry stringify l d body st)
  = (trace st ++ [Dispatch l (http_of stringify (this st) d);
                  Authenticate;
                  Dispatch (length (heap st))
                    (http_of stringify (this st)
                       (oauth_descriptor (this st) JUndefined JUndefined JUndefined))])%list.
Proof.
  unfold before_retry, token_stored, dispatched, authenticating. sproj.
  by rewrite length_insert, <- !app_assoc.
Qed.

Lemma before_retry_lookup l d body st :
  (l < length (heap st))%nat →
  heap (before_retry stringify l d body st) !! l
  = Some (set_counter (counter_or_zero d + 1) (prepared (this st) d)).
Proof.
  intros Hlt. unfold before_retry, token_stored, dispatched, authenticating. sproj.
  apply list_lookup_insert_eq.
  rewrite length_insert, length_app, length_insert. lia.
Qed.

Lemma before_retry_length l d body st :
  length (heap (before_retry stringify l d body st)) = S (length (heap st)).
Proof.
  unfold before_retry, token_stored, dispatched, authenticating. sproj.
  rewrite !length_insert, length_app, length_insert. cbn [length]. lia.
Qed.

Lemma before_retry_client l d body st :
  this (before_retry stringify l d body st)
  = set_token_type (default JUndefined (get_prop body "token_type"))
      (set_access_token (default JUndefined (get_prop body "access_token")) (this st)).
Proof. reflexivity. Qed.

Lemma endpoint_prepared c d : endpoint (prepared c d) = endpoint d.
Proof.
  unfold prepared, with_stripped_query, with_token.
  repeat (case_match; simpl; try done).
Qed.

Lemma method_prepared c d : method (prepared c d) = method d.
Proof.
  unfold prepared, with_stripped_query, with_token.
  repeat (case_match; simpl; try done).
Qed.

Lemma attempts_app l t1 t2 : attempts l (t1 ++ t2) = (attempts l t1 + attempts l t2)%nat.
Proof. unfold attempts. by rewrite List.filter_app, length_app. Qed.

(** C4, as claimed, fails: after a retried call the descriptor object the
    caller passed (location 0) is no longer what the caller passed: its
    counter reads 2; and the store holds it and the two token requests only,
    no copy of it, while the transport was handed object 0 twice. *)
Lemma retry_mutates_callers_descriptor :
  let st := Example.with_descriptor Example.trending Example.state0 in
  let st' := (_request Example.expired Example.count_entries 5 (Some 0%nat) None st).2 in
  heap st !! 0%nat = Some Example.trending
  ∧ heap st' !! 0%nat ≠ Some Example.trending
  ∧ counter <$> heap st' !! 0%nat = Some (Some 2)
  ∧ length (heap st') = 3%nat
  ∧ attempts 0%nat (trace st') = 2%nat.
Proof.
  cbv zeta. split; [reflexivity|]. split; [|by vm_compute].
  intros H. apply (f_equal (fmap counter)) in H. vm_compute in H. discriminate.
Qed.

(** C4, amended. On a 401 of an operation whose re-authentication succeeds,
    the orchestrator runs again on the very descriptor object it was given,
    after writing the previous counter plus one into its counter field (the
    object also keeps the Authorization header and the stripped query that
    preparing the request left in it); the only object allocated meanwhile is
    the token request of [authenticate]. *)
Theorem retry_reuses_descriptor_with_counter_incremented n l d st conv body :
  heap st !! l = Some d →
  String.eqb (api d) "/oauth" = false →
  0 ≤ counter_or_zero d < retryLimit (this st) →
  has_credentials (this st) = true →
  (conv = Awaitable → promisesExist st = true) →
  transport (sent (trace st)) (http_of stringify (this st) d) = TReject (JNum 401) →
  transport (sent (trace st) ++ [http_of stringify (this st) d])%list
    (http_of stringify (this st)
       (oauth_descriptor (this st) JUndefined JUndefined JUndefined))
  = TResolve body →
  nullish body = false →
  let st1 := before_retry stringify l d body st in
  _request transport stringify (S (S n)) (Some l) (callback_of conv) st
  = _request transport stringify (S n) (Some l) (callback_of conv) st1
  ∧ heap st1 !! l = Some (set_counter (counter_or_zero d + 1) (prepared (this st) d))
  ∧ length (heap st1) = S (length (heap st))
  ∧ trace st1
    = (trace st ++ [Dispatch l (http_of stringify (this st) d);
                    Authenticate;
                    Dispatch (length (heap st))
                      (http_of stringify (this st)
                         (oauth_descriptor (this st) JUndefined JUndefined JUndefined))])%list.
Proof.
  intros Hl Hapi Hcnt Hcred Hp H401 Hauth Hbody st1. unfold st1.
  split; [by apply retry_step|].
  split; [apply before_retry_lookup; eapply lookup_lt_Some; eauto|].
  split; [apply before_retry_length|apply before_retry_trace].
Qed.

End Exhaustion.

Lemma retry_reuses_descriptor_with_counter_incremented_witness :
  let st := Example.with_descriptor Example.trending Example.state0 in
  let st1 := before_retry Example.count_entries 0%nat Example.trending Example.token_body st in
  _request Example.expired Example.count_entries 3 (Some 0%nat) (Some user_callback) st
  = _request Example.expired Example.count_entries 2 (Some 0%nat) (Some user_callback) st1
  ∧ counter <$> heap st1 !! 0%nat = Some (Some 1).
Proof.
  cbv zeta.
  destruct (retry_reuses_descriptor_with_counter_incremented
              Example.expired Example.count_entries 1 0%nat Example.trending
              (Example.with_descriptor Example.trending Example.state0)
              WithCallback Example.token_body)
    as (Hrun & _);
    [reflexivity|reflexivity|split; [reflexivity|reflexivity]|reflexivity|discriminate
    |reflexivity|reflexivity|reflexivity|].
  split; [exact Hrun|reflexivity].
Defined.

Section RetryLimit.

Variable transport : list http_options → http_options → outcome.
Variable stringify : gmap string jsval → string.

(** The operation: descriptor object [l] of a client whose URL is [base], with
    its path and method. *)
Variable l : loc.
Variables base a e m : string.
Variable limit : Z.

(** Every dispatch of the operation is answered 401 ... *)
Hypothesis operation_fails :
  ∀ h r, req_method r = m → (∃ qs, url r = base +:+ a +:+ e +:+ qs) →
         transport h r = TReject (JNum 401).
(** ... and every token request succeeds. *)
Hypothesis authentication_succeeds :
  ∀ h r, req_method r = "POST" → url r = base +:+ "/oauth" +:+ "/token" +:+ "" →
         ∃ body, transport h r = TResolve body ∧ nullish body = false.

Lemma retries_until_limit k :
  ∀ fuel st d,
    (k < fuel)%nat →
    promisesExist st = true →
    has_credentials (this st) = true →
    apiUrl (this st) = base →
    retryLimit (this st) = limit →
    heap st !! l = Some d →
    String.eqb (api d) "/oauth" = false →
    api d = a → endpoint d = e → method d = m →
    0 ≤ counter_or_zero d ≤ limit →
    k = Z.to_nat (limit - counter_or_zero d) →
    ∃ st',
      _request transport stringify fuel (Some l) None st
      = (Ok (RPromise (Rejected (JStr "Retry limit reached"))), st')
      ∧ attempts l (trace st') = (attempts l (trace st) + k)%nat.
Proof.
  induction k as [|k IH]; intros fuel st d Hfuel Hp Hcred Hbase Hlim Hl Hapi Ha He Hm Hc Hk.
  - destruct fuel as [|n]; [lia|].
    exists st. split; [|lia].
    apply (retry_limit_without_callback_is_terminal _ _ _ _ d); [done|done|lia].
  - destruct fuel as [|[|n]]; [lia|lia|].
    assert (Hlt : (l < length (heap st))%nat) by (eapply lookup_lt_Some; eauto).
    destruct (authentication_succeeds
                (sent (trace st) ++ [http_of stringify (this st) d])%list
                (http_of stringify (this st)
                   (oauth_descriptor (this st) JUndefined JUndefined JUndefined)))
      as (body & Hres & Hbody); [done|by rewrite <- Hbase|].
    assert (H401 : transport (sent (trace st)) (http_of stringify (this st) d)
                   = TReject (JNum 401)).
    { apply operation_fails; [done|]. exists (query_string stringify d).
      cbn [url http_of]. by rewrite Hbase, Ha, He. }
    assert (Hstep := retry_step transport stringify n l d st Awaitable body
                       Hl Hapi ltac:(lia) Hcred ltac:(done) H401 Hres Hbody).
    cbn [callback_of] in Hstep. rewrite Hstep.
    destruct (IH (S n) (before_retry stringify l d body st)
                (set_counter (counter_or_zero d + 1) (prepared (this st) d)))
      as (st' & Hrun & Hatt); try done.
    + lia.
    + by apply before_retry_lookup.
    + cbn [api set_counter]. by rewrite api_prepared.
    + cbn [api set_counter]. by rewrite api_prepared.
    + cbn [endpoint set_counter]. by rewrite endpoint_prepared.
    + cbn [method set_counter]. by rewrite method_prepared.
    + unfold counter_or_zero. cbn [counter set_counter].
      fold (counter_or_zero d).
      destruct (counter_or_zero d + 1 =? 0) eqn:E; lia.
    + unfold counter_or_zero at 1. cbn [counter set_counter].
      fold (counter_or_zero d).
      destruct (counter_or_zero d + 1 =? 0) eqn:E; lia.
    + exists st'. split; [done|].
      rewrite Hatt, before_retry_trace, attempts_app.
      unfold attempts at 2. cbn [List.filter is_dispatch_of].
      rewrite Nat.eqb_refl.
      replace (Nat.eqb l (length (heap st))) with false
        by (symmetry; apply Nat.eqb_neq; lia).
      cbn [length]. lia.
Qed.

End RetryLimit.

(** C1, as claimed, fails: with every dispatch of [getTrending] answered 401
    and every re-authentication successful, the promise is rejected with the
    fixed string, not with the 401 of the last attempt. *)
Lemma exhausted_retries_surface_fixed_message :
  let run := call Example.expired Example.count_entries 5 getTrending JUndefined None
               Example.state0 in
  run.1 = Ok (RPromise (Rejected (JStr "Retry limit reached")))
  ∧ run.1 ≠ Ok (RPromise (Rejected (JNum 401)))
  ∧ attempts 0%nat (trace run.2) = 2%nat.
Proof. cbv zeta. split; [by vm_compute|]. split; [by vm_compute|by vm_compute]. Qed.

(** C1, amended. In the promise convention, on a client with credentials,
    an operation whose every dispatch is answered 401 while every
    re-authentication succeeds is handed to the transport exactly
    [retryLimit] times, and its promise is then rejected with the fixed
    string 'Retry limit reached'. *)
Theorem exhausted_retries_reject_with_retry_limit_message
    transport stringify fuel l d st :
  promisesExist st = true →
  has_credentials (this st) = true →
  heap st !! l = Some d →
  api d ≠ "/oauth" →
  counter d = None →
  0 ≤ retryLimit (this st) →
  (∀ h r, req_method r = method d →
          (∃ qs, url r = apiUrl (this st) +:+ api d +:+ endpoint d +:+ qs) →
          transport h r = TReject (JNum 401)) →
  (∀ h r, req_method r = "POST" →
          url r = apiUrl (this st) +:+ "/oauth" +:+ "/token" +:+ "" →
          ∃ body, transport h r = TResolve body ∧ nullish body = false) →
  (Z.to_nat (retryLimit (this st)) < fuel)%nat →
  ∃ st',
    _request transport stringify fuel (Some l) None st
    = (Ok (RPromise (Rejected (JStr "Retry limit reached"))), st')
    ∧ Z.of_nat (attempts l (trace st')) = Z.of_nat (attempts l (trace st)) + retryLimit (this st).
Proof.
  intros Hp Hcred Hl Hapi Hc Hlim Hop Hauth Hfuel.
  assert (Hc0 : counter_or_zero d = 0) by (unfold counter_or_zero; by rewrite Hc).
  destruct (retries_until_limit transport stringify l (apiUrl (this st)) (api d)
              (endpoint d) (method d) (retryLimit (this st)) Hop Hauth
              (Z.to_nat (retryLimit (this st))) fuel st d)
    as (st' & Hrun & Hatt); try done.
  - by apply String.eqb_neq.
  - lia.
  - rewrite Hc0. f_equal. lia.
  - exists st'. split; [done|]. rewrite Hatt. lia.
Qed.

Lemma exhausted_retries_reject_with_retry_limit_message_witness :
  ∃ st',
    _request Example.expired Example.count_entries 3 (Some 0%nat) None
      (Example.with_descriptor Example.trending Example.state0)
    = (Ok (RPromise (Rejected (JStr "Retry limit reached"))), st')
    ∧ Z.of_nat (attempts 0%nat (trace st')) = 0 + 2.
Proof.
  apply (exhausted_retries_reject_with_retry_limit_message
           Example.expired Example.count_entries 3 0%nat Example.trending
           (Example.with_descriptor Example.trending Example.state0));
    try reflexivity.
  - discriminate.
  - discriminate.
  - intros h r Hm _. unfold Example.expired, Example.is_token_request.
    rewrite Hm. reflexivity.
  - intros h r Hm _. exists Example.token_body.
    unfold Example.expired, Example.is_token_request. rewrite Hm. split; reflexivity.
  - vm_compute. lia.
Defined.

(** ** Where the code departs from its documented behaviour *)

(** C2. With a callback, a descriptor whose counter has reached the limit
    gets the callback invoked with 'Retry limit reached', and is handed to
    the transport all the same (line 350 does not return): the caller's
    callback is invoked a second time with the answer.  While such answers
    are 401, the counter keeps growing past [retryLimit]. *)
Theorem retry_limit_with_callback_still_dispatches :
  (let st := Example.with_descriptor Example.exhausted Example.state0 in
   let run := _request Example.healthy Example.count_entries 1 (Some 0%nat)
                (Some user_callback) st in
   retryLimit (this st) ≤ counter_or_zero Example.exhausted
   ∧ run.1 = Ok (RVal JUndefined)
   ∧ trace run.2
     = [Callback (JStr "Retry limit reached") JUndefined;
        Dispatch 0%nat (http_of Example.count_entries Example.client0 Example.exhausted);
        Callback JNull Example.gifs])
  ∧ (let st := Example.with_descriptor Example.trending Example.state0 in
     let run := _request (Example.expired_until 5) Example.count_entries 6 (Some 0%nat)
                  (Some user_callback) st in
     run.1 = Ok (RVal JUndefined)
     ∧ callbacks (trace run.2)
       = [(JStr "Retry limit reached", JUndefined);
          (JStr "Retry limit reached", JUndefined);
          (JNull, Example.gifs)]
     ∧ attempts 0%nat (trace run.2) = 4%nat
     ∧ counter <$> heap run.2 !! 0%nat = Some (Some 3)
     ∧ retryLimit (this run.2) = 2).
Proof. cbv zeta. split; [by vm_compute|by vm_compute]. Qed.

(** C3. Without a callback, [authenticate] neither rejects when its request
    fails nor fulfils with the response when it succeeds: the handlers of
    lines 95-101 build [Promise.resolve(res)] and [Promise.reject(err)]
    without returning them, so the promise is fulfilled with undefined either
    way. *)
Theorem authenticate_promise_drops_outcome :
  (let run := authenticate (_request Example.broken Example.count_entries 1)
                (JObj ∅) None Example.state0 in
   sent (trace run.2)
   = [http_of Example.count_entries Example.client0 Example.token_request]
   ∧ Example.broken [] (http_of Example.count_entries Example.client0 Example.token_request)
     = TReject (JNum 500)
   ∧ run.1 = Ok (RPromise (Fulfilled JUndefined)))
  ∧ (let run := authenticate (_request Example.healthy Example.count_entries 1)
                  (JObj ∅) None Example.state0 in
     Example.healthy [] (http_of Example.count_entries Example.client0 Example.token_request)
     = TResolve Example.token_body
     ∧ run.1 = Ok (RPromise (Fulfilled JUndefined))
     ∧ access_token (this run.2) = JStr "t0k3n").
Proof. cbv zeta. split; [by vm_compute|by vm_compute]. Qed.

(** With a callback the same failure does reach the caller. *)
Lemma authenticate_callback_reports_failure :
  let run := authenticate (_request Example.broken Example.count_entries 1)
               (JObj ∅) (Some user_callback) Example.state0 in
  callbacks (trace run.2) = [(JNum 500, JUndefined)].
Proof. by vm_compute. Qed.

(** C5. [stickers] does not hand its callback to [_request] (line 322):
    called with a callback, it never invokes it, on success or on failure,
    and returns a promise instead; [search], called the same way, does
    invoke it. *)
Theorem stickers_never_invokes_callback :
  let options := JObj (<["search_text" := JStr "cat"]> ∅) in
  (let run := call Example.healthy Example.count_entries 1 stickers options
                (Some user_callback) Example.state0 in
   run.1 = Ok (RPromise (Fulfilled Example.gifs)) ∧ callbacks (trace run.2) = [])
  ∧ (let run := call Example.broken Example.count_entries 1 stickers options
                  (Some user_callback) Example.state0 in
     run.1 = Ok (RPromise (Rejected (JNum 500))) ∧ callbacks (trace run.2) = [])
  ∧ (let run := call Example.healthy Example.count_entries 1 search options
                  (Some user_callback) Example.state0 in
     run.1 = Ok (RVal JUndefined) ∧ callbacks (trace run.2) = [(JNull, Example.gifs)])
  ∧ (let run := call Example.broken Example.count_entries 1 search options
                  (Some user_callback) Example.state0 in
     run.1 = Ok (RVal JUndefined) ∧ callbacks (trace run.2) = [(JNum 500, JUndefined)]).
Proof. cbv zeta. repeat split; by vm_compute. Qed.

Lemma get_prop_truthy v k : truthy v = true → ∃ x, get_prop v k = Some x.
Proof. destruct v; try done; eauto. Qed.

Lemma setToken_null body st :
  nullish body = true → _setToken body st = (Throw JTypeError, st).
Proof. by destruct body. Qed.

(** The same holds of every call: on a client with credentials, whatever the
    transport answers, the promise of [authenticate] is fulfilled with
    undefined. *)
Lemma authenticate_promise_always_fulfils_undefined transport stringify n options st :
  promisesExist st = true →
  has_credentials (this st) = true →
  ∃ st', authenticate (_request transport stringify (S n)) options None st
         = (Ok (RPromise (Fulfilled JUndefined)), st').
Proof.
  intros Hp Hcred. unfold authenticate, has_credentials in *.
  mstep.
  set (o := if negb (truthy options) then JObj ∅ else options).
  assert (Ho : truthy o = true) by (unfold o; by destruct (truthy options) eqn:E).
  destruct (get_prop_truthy o "client_id" Ho) as [o_id Hid].
  destruct (get_prop_truthy o "client_secret" Ho) as [o_secret Hsecret].
  destruct (get_prop_truthy o "grant_type" Ho) as [o_grant Hgrant].
  mstep. unfold prop. rewrite Hid, Hsecret, Hgrant. do 2 mstep. sproj.
  rewrite Hcred. cbn [negb andb]. do 2 mstep.
  set (d := oauth_descriptor (this st) o_id o_secret o_grant).
  set (s := set_heap _ _).
  assert (Hl : heap s !! length (heap st) = Some d)
    by (unfold s; sproj; by apply list_lookup_middle).
  assert (Hreq : ∃ p s', _request transport stringify (S n) (Some (length (heap st))) None s
                         = (Ok (RPromise p), s')
                         ∧ promisesExist s' = true).
  { destruct (Z.leb_spec (retryLimit (this s)) (counter_or_zero d)) as [Hle|Hgt].
    - eexists _, _.
      split; [by apply (retry_limit_without_callback_is_terminal _ _ _ _ d)|done].
    - rewrite (request_completes_directly transport stringify n _ d s Awaitable
                 (transport (sent (trace s)) (http_of stringify (this s) d)));
        [|done|done|done|by left].
      destruct (transport _ _); eexists _, _; split; reflexivity || done. }
  destruct Hreq as (p & s' & Hreq & Hp').
  rewrite (bind_eq _ _ _ _ _ Hreq). cbn [as_promise]. mstep.
  destruct p as [body|err]; cbn [p_then].
  - destruct (nullish body) eqn:Hb.
    + erewrite bind_eq; cycle 1.
      { apply settle_throw. unfold bind. by rewrite (setToken_null _ _ Hb). }
      eexists. reflexivity.
    + erewrite bind_eq; cycle 1.
      { apply settle_val. by rewrite (bind_eq _ _ _ _ _ (setToken_eq _ _ Hb)). }
      eexists. reflexivity.
  - eexists. reflexivity.
Qed.

(** [search] codes no default for [start]: omitted, it is forwarded as null
    and stripped from the query, which leaves the offset to the service. *)
Lemma search_start_has_no_default (o : gmap string jsval) st :
  o !! "start" = None →
  ∃ d q, descriptor_of search (JObj o) st = (Ok d, st)
         ∧ query d = Some q ∧ q !! "start" = Some JNull
         ∧ strip_nulls q !! "start" = None.
Proof.
  intros Ho. eexists _, _. split; [reflexivity|]. split; [reflexivity|].
  cbn [get_prop]. rewrite Ho. cbn [default js_or truthy].
  split; [by simplify_map_eq|].
  apply map_lookup_filter_None. right. intros v Hv. simplify_map_eq. done.
Qed.

(** C7. The claim fails at the offset of [search], where the code departs
    from its own documentation: [start] is described as "(optional) results
    offset, defaults to 0" (line 231), and for options that omit it the
    descriptor handed to [_request] carries null (line 243), which the query
    string then leaves out; [count], two lines above, does get its described
    default. *)
Theorem search_forwards_null_for_an_omitted_start :
  described_default search "start" = Some (JNum 0)
  ∧ described_default search "count" = Some (JNum 100)
  ∧ field_omitted search (JObj (<["search_text" := JStr "cat"]> ∅)) "start"
  ∧ field_omitted search (JObj (<["search_text" := JStr "cat"]> ∅)) "count"
  ∧ ∃ d q,
      descriptor_of search (JObj (<["search_text" := JStr "cat"]> ∅)) Example.state0
      = (Ok d, Example.state0)
      ∧ query d = Some q
      ∧ q !! "count" = Some (JNum 100)
      ∧ q !! "start" = Some JNull
      ∧ q !! "start" ≠ Some (JNum 0)
      ∧ strip_nulls q !! "start" = None.
Proof.
  split; [reflexivity|]. split; [reflexivity|].
  split; [left; eexists; split; reflexivity|].
  split; [left; eexists; split; reflexivity|].
  eexists _, _. split; [reflexivity|]. split; [reflexivity|].
  split; [reflexivity|]. split; [reflexivity|]. split; [discriminate|].
  apply map_lookup_filter_None. right. intros v Hv. simplify_map_eq. done.
Qed.

(** Everywhere else the methods do what is described: an omitted optional
    field is forwarded with its described default (count 100 for
    [getTrending], gfyCount 1 for [getCategories], and likewise for the
    others); the offset of [search] alone is forwarded as null. *)
Lemma omitted_fields_get_described_defaults_except_search_start
    m k v options st :
  described_default m k = Some v →
  field_omitted m options k →
  ∃ d q, descriptor_of m options st = (Ok d, st)
         ∧ query d = Some q
         ∧ q !! k = Some (forwarded_when_omitted m k v)
         ∧ (m = search ∧ k = "start" →
            forwarded_when_omitted m k v = JNull ∧ strip_nulls q !! k = None).
Proof.
  intros Hd Ho.
  assert (Hcase : (m = search ∧ k = "start")
                  ∨ (described_default m k = documented_default m k
                     ∧ forwarded_when_omitted m k v = v
                     ∧ ¬ (m = search ∧ k = "start"))).
  { destruct m;
      try (right; split; [reflexivity|split; [reflexivity|intros [? _]; discriminate]]).
    cbn [described_default forwarded_when_omitted].
    destruct (String.eqb_spec k "start") as [->|Hk]; [by left|].
    right. split; [reflexivity|]. split; [reflexivity|]. by intros [_ ?]. }
  destruct Hcase as [[-> ->] | (E1 & E2 & E3)].
  - destruct Ho as [(o & -> & Hk) | [_ Hm]]; [|done].
    destruct (search_start_has_no_default o st Hk) as (d & q & H1 & H2 & H3 & H4).
    exists d, q. by repeat split.
  - rewrite E1 in Hd.
    destruct (omitted_fields_get_documented_defaults m k v options st Hd Ho)
      as (d & q & H1 & H2 & H3).
    exists d, q. rewrite E2. repeat split; try done; by destruct E3.
Qed.

(** A descriptor built by an endpoint method starts without a counter. *)
Lemma descriptor_of_counter m options st d st' :
  descriptor_of m options st = (Ok d, st') → counter d = None ∧ st' = st.
Proof.
  destruct m; cbn [descriptor_of];
    unfold getCategories_descriptor, getTrending_descriptor,
      getTrendingCategories_descriptor, getTrendingTags_descriptor,
      getTrendingTagsPopulated_descriptor, search_descriptor, searchById_descriptor,
      getRelatedContent_descriptor, artifacts_descriptor, stickers_descriptor,
      bind, prop, ret_, throw;
    intros H; repeat (case_match; simplify_eq/=); by simplify_eq.
Qed.

(** The other nine methods do follow the dual convention: a call whose
    request is not answered 401 invokes the caller's callback once, as
    (null, result) or (error, undefined), or settles the returned promise
    accordingly. *)
Lemma endpoint_call_completes transport stringify n m options conv st d out :
  m ≠ stickers →
  descriptor_of m options st = (Ok d, st) →
  (conv = Awaitable → promisesExist st = true) →
  0 < retryLimit (this st) →
  transport (sent (trace st)) (http_of stringify (this st) d) = out →
  rejected_401 out = false →
  call transport stringify (S n) m options (callback_of conv) st
  = completed conv out
      (dispatched stringify (length (heap st)) d (set_heap (heap st ++ [d]) st)).
Proof.
  intros Hm Hd Hp Hlim Hout Hno. unfold call.
  destruct (descriptor_of_counter _ _ _ _ _ Hd) as [Hc _].
  rewrite (bind_eq _ _ _ _ _ Hd). mstep.
  replace (forwarded_callback m (callback_of conv)) with (callback_of conv)
    by (by destruct m).
  assert (Hzero : counter_or_zero d = 0) by (unfold counter_or_zero; by rewrite Hc).
  rewrite (request_completes_directly transport stringify n _ d _ conv out);
    [|sproj; by apply list_lookup_middle|sproj; rewrite Hzero; auto|done|by right].
  unfold entered. sproj. rewrite Hzero.
  replace (retryLimit (this st) <=? 0) with false by lia.
  by destruct conv.
Qed.

(** * Further properties of the code *)

(** ** authenticate *)

Lemma or_empty_not_nullish options : nullish (or_empty options) = false.
Proof.
  unfold or_empty. destruct options as [| |[]|n|s| | |]; try done.
  - cbn. by destruct (n =? 0).
  - cbn. by destruct (String.eqb s "").
Qed.

Section Authentication.

Variable transport : list http_options → http_options → outcome.
Variable stringify : gmap string jsval → string.

(** Lines 68-71 of [authenticate], when no credential is at hand. *)
Lemma authenticate_refuses rec options cb st :
  has_credentials (this st) = false →
  call_credentials options = false →
  authenticate rec options cb st
  = _handleErr missing_credentials cb (set_trace (trace st ++ [Authenticate]) st).
Proof.
  intros Hc Ho. unfold authenticate, has_credentials, call_credentials in *.
  mstep. change (if negb (truthy options) then JObj ∅ else options) with (or_empty options).
  mstep. rewrite !(prop_eq _ _ (or_empty_not_nullish options)). do 2 mstep. sproj.
  by rewrite Hc, Ho.
Qed.

(** Lines 68-86 of [authenticate], when a credential is at hand: the token
    request is allocated and handed to [_request]. *)
Lemma authenticate_enters rec options f st :
  has_credentials (this st) || call_credentials options = true →
  authenticate rec options (Some f) st
  = rec (Some (length (heap st))) (Some (authenticate_callback f))
      (authenticating_with options st).
Proof.
  intros Hc. unfold authenticate, has_credentials, call_credentials in *.
  mstep. change (if negb (truthy options) then JObj ∅ else options) with (or_empty options).
  mstep. rewrite !(prop_eq _ _ (or_empty_not_nullish options)). do 2 mstep. sproj.
  replace (negb _ && negb _) with false
    by (symmetry; rewrite <- negb_orb; by rewrite Hc).
  by do 2 mstep.
Qed.

Lemma authenticate_callback_outcome n options f st out :
  has_credentials (this st) || call_credentials options = true →
  0 < retryLimit (this st) →
  transport (sent (trace st))
    (http_of stringify (this st) (token_request_of (this st) options)) = out →
  authenticate (_request transport stringify (S n)) options (Some f) st
  = (match out with
     | TResolve res => authenticate_callback f JNull res
     | TReject err => authenticate_callback f err JUndefined ;; ret_ (RVal JUndefined)
     end ;; ret_ (RVal JUndefined))
      (dispatched stringify (length (heap st)) (token_request_of (this st) options)
         (authenticating_with options st)).
Proof.
  intros Hc Hlim Hout. rewrite authenticate_enters by done.
  change (_request transport stringify (S n))
    with (_request_body transport stringify (_request transport stringify n)).
  rewrite (request_body_dispatch _ _ _ _ (token_request_of (this st) options));
    [|unfold authenticating_with; sproj; by apply list_lookup_middle|done|done].
  unfold dispatch_and_complete, authenticating_with. sproj.
  mstep. sproj. rewrite sent_app, app_nil_r, Hout.
  destruct out as [res|err]; [reflexivity|].
  unfold reject_callback. rewrite !bind_assoc.
  erewrite bind_eq; cycle 1.
  { apply deref_eq. sproj. apply list_lookup_insert_eq.
    rewrite length_app. cbn [length]. lia. }
  rewrite api_prepared. cbn [api token_request_of oauth_descriptor].
  change (String.eqb "/oauth" "/oauth") with true.
  rewrite andb_false_r. by rewrite !bind_assoc.
Qed.

End Authentication.

Lemma since_app st st' t : trace st' = (trace st ++ t)%list → since st st' = t.
Proof. unfold since. intros ->. by rewrite drop_app_length. Qed.

(** X1. With no credential on the client and none in its options,
    [authenticate] fails with the message of line 70, by the convention of
    the call (or by throwing, without callback and promises), before any
    descriptor is built and without a dispatch. *)
Theorem authenticate_without_credentials_fails_early
    transport stringify fuel options st :
  has_credentials (this st) = false →
  call_credentials options = false →
  (∀ conv,
     (conv = Awaitable → promisesExist st = true) →
     authenticate (_request transport stringify fuel) options (callback_of conv) st
     = completed conv (TReject (JStr missing_credentials))
         (set_trace (trace st ++ [Authenticate]) st))
  ∧ (promisesExist st = false →
     authenticate (_request transport stringify fuel) options None st
     = (Throw (JError missing_credentials), set_trace (trace st ++ [Authenticate]) st)).
Proof.
  intros Hc Ho. split.
  - intros conv Hp. rewrite authenticate_refuses by done.
    destruct conv; [reflexivity|].
    cbn [callback_of completed]. unfold _handleErr. mstep. sproj. by rewrite Hp.
  - intros Hp. rewrite authenticate_refuses by done.
    unfold _handleErr. mstep. sproj. by rewrite Hp.
Qed.

Lemma authenticate_without_credentials_fails_early_witness :
  authenticate (_request Example.healthy Example.count_entries 3) JUndefined None
    (initial_state true Scenario.anonymous)
  = (Ok (RPromise (Rejected (JStr missing_credentials))),
     set_trace [Authenticate] (initial_state true Scenario.anonymous)).
Proof.
  exact (proj1 (authenticate_without_credentials_fails_early
                  Example.healthy Example.count_entries 3 JUndefined
                  (initial_state true Scenario.anonymous) eq_refl eq_refl)
           Awaitable (λ _, eq_refl)).
Defined.

(** X2. [authenticate] with a callback, a credential at hand and a token
    request that succeeds: one POST goes to the token endpoint, carrying the
    credentials of the call before those of the client and grant type
    client_credentials unless another is given; the client's token fields are
    overwritten from the response; the callback is invoked once, with
    (null, response). *)
Theorem authenticate_stores_token_and_calls_back
    transport stringify n options st body :
  has_credentials (this st) || call_credentials options = true →
  0 < retryLimit (this st) →
  transport (sent (trace st))
    (http_of stringify (this st) (token_request_of (this st) options))
  = TResolve body →
  nullish body = false →
  let run := authenticate (_request transport stringify (S n)) options
               (Some user_callback) st in
  let r := http_of stringify (this st) (token_request_of (this st) options) in
  run.1 = Ok (RVal JUndefined)
  ∧ since st run.2 = [Authenticate; Dispatch (length (heap st)) r; Callback JNull body]
  ∧ access_token (this run.2) = default JUndefined (get_prop body "access_token")
  ∧ token_type (this run.2) = default JUndefined (get_prop body "token_type")
  ∧ req_method r = "POST"
  ∧ url r = apiUrl (this st) +:+ "/oauth/token"
  ∧ req_payload r
    = JObj (<["client_id" := js_or (default JUndefined (get_prop (or_empty options) "client_id"))
                               (client_id (this st))]>
           (<["client_secret" := js_or (default JUndefined (get_prop (or_empty options) "client_secret"))
                                   (client_secret (this st))]>
           (<["grant_type" := js_or (default JUndefined (get_prop (or_empty options) "grant_type"))
                                (JStr "client_credentials")]> ∅))).
Proof.
  intros Hc Hlim Hout Hbody run r. unfold run.
  rewrite (authenticate_callback_outcome _ _ _ _ _ _ (TResolve body)) by done.
  unfold authenticate_callback. cbn [truthy negb]. rewrite !bind_assoc.
  rewrite (bind_eq _ _ _ _ _ (setToken_eq _ _ Hbody)).
  split; [reflexivity|]. split.
  { apply since_app. unfold user_callback, token_stored, dispatched, authenticating_with.
    cbn. by rewrite <- !app_assoc. }
  repeat split; reflexivity.
Qed.

Lemma authenticate_stores_token_and_calls_back_witness :
  let run := authenticate (_request Example.healthy Example.count_entries 1)
               Scenario.call_time (Some user_callback)
               (initial_state true Scenario.anonymous) in
  access_token (this run.2) = JStr "t0k3n"
  ∧ callbacks (since (initial_state true Scenario.anonymous) run.2)
    = [(JNull, Example.token_body)].
Proof.
  cbv zeta.
  destruct (authenticate_stores_token_and_calls_back
              Example.healthy Example.count_entries 0 Scenario.call_time
              (initial_state true Scenario.anonymous) Example.token_body)
    as (_ & Hsince & Htok & _); [reflexivity|reflexivity|reflexivity|reflexivity|].
  split; [exact Htok|]. rewrite Hsince. reflexivity.
Defined.

(** X3. [authenticate] with a callback whose token request is rejected with
    a truthy reason, a 401 included: the reason is handed to the callback,
    once and unchanged, after the single dispatch; nothing is retried and the
    client's token is left as it was. *)
Theorem authenticate_hands_failure_to_callback
    transport stringify n options st err :
  has_credentials (this st) || call_credentials options = true →
  0 < retryLimit (this st) →
  transport (sent (trace st))
    (http_of stringify (this st) (token_request_of (this st) options))
  = TReject err →
  truthy err = true →
  let run := authenticate (_request transport stringify (S n)) options
               (Some user_callback) st in
  run.1 = Ok (RVal JUndefined)
  ∧ since st run.2
    = [Authenticate;
       Dispatch (length (heap st))
         (http_of stringify (this st) (token_request_of (this st) options));
       Callback err JUndefined]
  ∧ this run.2 = this st.
Proof.
  intros Hc Hlim Hout Herr run. unfold run.
  rewrite (authenticate_callback_outcome _ _ _ _ _ _ (TReject err)) by done.
  unfold authenticate_callback. rewrite Herr. cbn [negb].
  split; [reflexivity|]. split; [|reflexivity].
  apply since_app. unfold user_callback, dispatched, authenticating_with.
  cbn. by rewrite <- !app_assoc.
Qed.

Lemma authenticate_hands_failure_to_callback_witness :
  let run := authenticate (_request Example.always_401 Example.count_entries 1)
               (JObj ∅) (Some user_callback) Example.state0 in
  callbacks (since Example.state0 run.2) = [(JNum 401, JUndefined)]
  ∧ this run.2 = Example.client0.
Proof.
  cbv zeta.
  destruct (authenticate_hands_failure_to_callback
              Example.always_401 Example.count_entries 0 (JObj ∅)
              Example.state0 (JNum 401))
    as (_ & Hsince & Hthis); [reflexivity|reflexivity|reflexivity|reflexivity|].
  split; [|exact Hthis]. rewrite Hsince. reflexivity.
Defined.

(** X4. A token request rejected with a falsy reason (0, the empty string,
    undefined) is taken for a success by the test [!err] of line 88:
    [_setToken] then reads a field of undefined, a TypeError is raised, and
    the callback is never invoked. *)
Theorem authenticate_takes_falsy_rejection_for_success
    transport stringify n options st err :
  has_credentials (this st) || call_credentials options = true →
  0 < retryLimit (this st) →
  transport (sent (trace st))
    (http_of stringify (this st) (token_request_of (this st) options))
  = TReject err →
  truthy err = false →
  let run := authenticate (_request transport stringify (S n)) options
               (Some user_callback) st in
  run.1 = Throw JTypeError
  ∧ callbacks (trace run.2) = callbacks (trace st)
  ∧ this run.2 = this st.
Proof.
  intros Hc Hlim Hout Herr run. unfold run.
  rewrite (authenticate_callback_outcome _ _ _ _ _ _ (TReject err)) by done.
  unfold authenticate_callback. rewrite Herr. cbn [negb].
  split; [reflexivity|]. split; [|reflexivity].
  unfold dispatched, authenticating_with. cbn.
  unfold callbacks. rewrite !omap_app. cbn. by rewrite !app_nil_r.
Qed.

Lemma authenticate_takes_falsy_rejection_for_success_witness :
  let run := authenticate (_request (λ _ _, TReject (JNum 0)) Example.count_entries 1)
               (JObj ∅) (Some user_callback) Example.state0 in
  run.1 = Throw JTypeError ∧ callbacks (trace run.2) = [].
Proof.
  cbv zeta.
  destruct (authenticate_takes_falsy_rejection_for_success
              (λ _ _, TReject (JNum 0)) Example.count_entries 0 (JObj ∅)
              Example.state0 (JNum 0))
    as (Hrun & Hcb & _); [reflexivity|reflexivity|reflexivity|reflexivity|].
  split; [exact Hrun|exact Hcb].
Defined.

(** ** Preparing a request *)

Lemma string_length_append (a b : string) :
  String.length (a +:+ b) = (String.length a + String.length b)%nat.
Proof.
  induction a as [|c a IH]; [done|].
  change (S (String.length (a +:+ b)) = S (String.length a + String.length b)).
  by rewrite IH.
Qed.

Lemma bearer_differs (v : jsval) : JStr ("Bearer " +:+ to_string v) ≠ v.
Proof.
  destruct v as [| | | |s| | |]; try done.
  cbn [to_string]. intros H. injection H as H.
  apply (f_equal String.length) in H. rewrite string_length_append in H.
  cbn in H. lia.
Qed.

Lemma strip_nulls_idempotent q : strip_nulls (strip_nulls q) = strip_nulls q.
Proof.
  unfold strip_nulls. apply map_eq. intros k. apply option_eq. intros v.
  rewrite !map_lookup_filter_Some. tauto.
Qed.

Lemma headers_stripped d : headers (with_stripped_query d) = headers d.
Proof. unfold with_stripped_query. by repeat case_match. Qed.

Lemma payload_prepared c d : payload (prepared c d) = payload d.
Proof.
  unfold prepared, with_stripped_query, with_token.
  repeat (case_match; simpl; try done).
Qed.

Lemma timeout_prepared c d : opt_timeout (prepared c d) = opt_timeout d.
Proof.
  unfold prepared, with_stripped_query, with_token.
  repeat (case_match; simpl; try done).
Qed.

Lemma query_prepared c d :
  query (prepared c d)
  = match query d with
    | Some q => Some (if Nat.eqb (size q) 0 then q else strip_nulls q)
    | None => None
    end.
Proof.
  unfold prepared, with_stripped_query, with_token.
  destruct (truthy (access_token c)); cbn [query set_headers];
    destruct (query d) as [q|] eqn:Hq; try done;
    destruct (Nat.eqb (size q) 0); cbn [negb query set_query]; by rewrite ?Hq.
Qed.

Lemma with_token_idempotent c d : with_token c (with_token c d) = with_token c d.
Proof.
  unfold with_token. destruct (truthy (access_token c)); [|done].
  unfold set_headers. simpl. by rewrite insert_insert_eq.
Qed.

Lemma with_token_stripped c d :
  with_token c (with_stripped_query d) = with_stripped_query (with_token c d).
Proof.
  unfold with_token, with_stripped_query.
  destruct (truthy (access_token c)); [|done].
  cbn [query set_headers].
  destruct (query d) as [q|]; [|done].
  by destruct (Nat.eqb (size q) 0).
Qed.

Lemma with_stripped_query_idempotent d :
  with_stripped_query (with_stripped_query d) = with_stripped_query d.
Proof.
  destruct d as [a e m q p h t c]. unfold with_stripped_query. cbn [query].
  destruct q as [q|]; [|done].
  destruct (Nat.eqb (size q) 0) eqn:Hs; cbn [negb query set_query]; [by rewrite Hs|].
  destruct (Nat.eqb (size (strip_nulls q)) 0); cbn [negb]; [done|].
  unfold set_query. cbn. by rewrite strip_nulls_idempotent.
Qed.

Lemma prepared_idempotent c d : prepared c (prepared c d) = prepared c d.
Proof.
  unfold prepared.
  by rewrite with_token_stripped, with_token_idempotent, with_stripped_query_idempotent.
Qed.

(** X5. While the client holds a truthy access token, every request that
    is prepared carries it in the Authorization header as it is (the
    'Bearer ' string of line 355 is computed and not sent), beside the
    headers the descriptor had, and the header stays on the descriptor
    object; without a token the descriptor's headers go out untouched. *)
Theorem authorization_header_is_the_raw_token stringify l d st :
  heap st !! l = Some d →
  ∃ r st',
    build_request stringify l st = (Ok r, st')
    ∧ (truthy (access_token (this st)) = true →
       ∃ h, req_headers r = Some h
            ∧ h !! "Authorization" = Some (access_token (this st))
            ∧ h !! "Authorization"
              ≠ Some (JStr ("Bearer " +:+ to_string (access_token (this st))))
            ∧ (∀ k, k ≠ "Authorization" → h !! k = default ∅ (headers d) !! k)
            ∧ headers <$> heap st' !! l = Some (Some h))
    ∧ (truthy (access_token (this st)) = false → req_headers r = headers d).
Proof.
  intros Hl.
  assert (Hlt : (l < length (heap st))%nat) by (eapply lookup_lt_Some; eauto).
  eexists _, _. split; [apply (build_request_eq _ _ _ _ Hl)|].
  cbn [req_headers http_of]. unfold with_token. split; intros Htok; rewrite Htok; [|done].
  eexists. split; [reflexivity|].
  split; [apply lookup_insert_eq|].
  split.
  { rewrite lookup_insert_eq. intros H. injection H as H.
    symmetry in H. by apply bearer_differs in H. }
  split; [intros k Hk; by rewrite lookup_insert_ne|].
  sproj. rewrite list_lookup_insert_eq by done.
  cbn [fmap option_fmap option_map]. f_equal.
  unfold prepared. rewrite headers_stripped. unfold with_token. by rewrite Htok.
Qed.

Lemma authorization_header_is_the_raw_token_witness :
  ∃ r st' h,
    build_request Example.count_entries 0%nat
      (Example.with_descriptor Scenario.upload
         (initial_state true Scenario.authenticated)) = (Ok r, st')
    ∧ req_headers r = Some h
    ∧ h !! "Authorization" = Some (JStr "t0k3n")
    ∧ h !! "Content-Type" = Some (JStr "application/x-www-form-urlencoded").
Proof.
  destruct (authorization_header_is_the_raw_token Example.count_entries 0%nat
              Scenario.upload
              (Example.with_descriptor Scenario.upload
                 (initial_state true Scenario.authenticated)) eq_refl)
    as (r & st' & Hrun & Hyes & _).
  destruct (Hyes eq_refl) as (h & Hh & Hauth & _ & Hrest & _).
  exists r, st', h. split; [exact Hrun|]. split; [exact Hh|]. split; [exact Hauth|].
  rewrite Hrest by discriminate. reflexivity.
Defined.

(** X6. The request a retry sends is rebuilt from the descriptor object as
    the first attempt left it, under the client as the re-authentication
    left it (state [before_retry]): method, payload, timeout and path are
    those of the first request; the Authorization header is the token just
    stored when that is truthy, and otherwise the headers of the first
    request go out again, a stale token included; the query part is the
    same, with one exception: when the query mapping was not empty and all
    its values were null or undefined, the first URL ends in '?' and the
    encoding of the empty mapping, and the retry's has no query part.  That
    request is the one the retry dispatches (last part). *)
Theorem retry_rebuilds_the_request_under_the_new_token stringify l d body st :
  heap st !! l = Some d →
  ∃ r1 st1 r2 st2,
    build_request stringify l st = (Ok r1, st1)
    ∧ build_request stringify l (before_retry stringify l d body st) = (Ok r2, st2)
    ∧ req_method r2 = req_method r1
    ∧ req_payload r2 = req_payload r1
    ∧ req_timeout r2 = req_timeout r1
    ∧ req_headers r2
      = (if truthy (default JUndefined (get_prop body "access_token"))
         then Some (<["Authorization" := default JUndefined (get_prop body "access_token")]>
                      (default ∅ (req_headers r1)))
         else req_headers r1)
    ∧ match query d with
      | Some q =>
          if negb (Nat.eqb (size q) 0) && Nat.eqb (size (strip_nulls q)) 0
          then url r1 = apiUrl (this st) +:+ api d +:+ endpoint d +:+ "?" +:+ stringify ∅
               ∧ url r2 = apiUrl (this st) +:+ api d +:+ endpoint d +:+ ""
          else url r2 = url r1
      | None => url r2 = url r1
      end
    ∧ ∀ transport rec cb,
        0 ≤ counter_or_zero d →
        counter_or_zero d + 1 < retryLimit (this st) →
        (cb = None → promisesExist st = true) →
        _request_body transport stringify rec (Some l) cb
          (before_retry stringify l d body st)
        = dispatch_and_complete transport rec l (counter_or_zero d + 1) r2 cb st2.
Proof.
  intros Hl.
  assert (Hlt : (l < length (heap st))%nat) by (eapply lookup_lt_Some; eauto).
  pose proof (before_retry_lookup stringify l d body st Hlt) as Hl2.
  eexists _, _, _, _.
  split; [apply (build_request_eq _ _ _ _ Hl)|].
  split; [apply (build_request_eq _ _ _ _ Hl2)|].
  match goal with
  | |- ?A ∧ ?B ∧ ?C ∧ ?D ∧ ?E ∧ ?F => cut (F ∧ A ∧ B ∧ C ∧ D ∧ E); [tauto|]
  end.
  split.
  { intros transport rec cb H0 Hc Hp.
    assert (Hcnt : counter_or_zero
                     (set_counter (counter_or_zero d + 1) (prepared (this st) d))
                   = counter_or_zero d + 1).
    { unfold counter_or_zero at 1. cbn [counter set_counter].
      destruct (counter_or_zero d + 1 =? 0) eqn:E; lia. }
    rewrite (request_body_dispatch transport stringify rec l _ _ cb Hl2);
      [by rewrite Hcnt|by rewrite Hcnt|done]. }
  rewrite before_retry_client.
  cbn [req_headers req_method req_payload req_timeout url http_of
       method payload opt_timeout api endpoint set_counter
       timeout apiUrl set_token_type set_access_token].
  split; [apply method_prepared|].
  split; [by rewrite payload_prepared|].
  split; [by rewrite timeout_prepared|].
  split.
  { unfold with_token at 1. cbn [access_token set_token_type set_access_token].
    assert (Hh : headers (set_counter (counter_or_zero d + 1) (prepared (this st) d))
                 = headers (with_token (this st) d)).
    { cbn [headers set_counter]. unfold prepared. apply headers_stripped. }
    destruct (truthy (default JUndefined (get_prop body "access_token")));
      cbn [headers set_headers]; by rewrite Hh. }
  rewrite api_prepared, endpoint_prepared.
  unfold query_string. cbn [query set_counter]. rewrite query_prepared.
  destruct (query d) as [q|]; [|done].
  destruct (Nat.eqb (size q) 0) eqn:Hs; cbn [negb andb]; [by rewrite Hs|].
  destruct (Nat.eqb (size (strip_nulls q)) 0) eqn:Hs'; cbn [negb].
  - assert (Hempty : strip_nulls q = ∅) by (by apply map_size_empty_iff, Nat.eqb_eq).
    by rewrite Hempty.
  - by rewrite strip_nulls_idempotent.
Qed.

Lemma retry_rebuilds_the_request_under_the_new_token_witness :
  ∃ r1 st1 r2 st2,
    build_request Example.count_entries 0%nat
      (Example.with_descriptor Scenario.related Example.state0) = (Ok r1, st1)
    ∧ build_request Example.count_entries 0%nat
        (before_retry Example.count_entries 0%nat Scenario.related Example.token_body
           (Example.with_descriptor Scenario.related Example.state0)) = (Ok r2, st2)
    ∧ req_headers r1 = None
    ∧ req_headers r2 = Some (<["Authorization" := JStr "t0k3n"]> ∅)
    ∧ url r1 = "https://api.gfycat.com/v1/gfycats/abc/related?0"
    ∧ url r2 = "https://api.gfycat.com/v1/gfycats/abc/related".
Proof.
  destruct (retry_rebuilds_the_request_under_the_new_token Example.count_entries 0%nat
              Scenario.related Example.token_body
              (Example.with_descriptor Scenario.related Example.state0) eq_refl)
    as (r1 & st1 & r2 & st2 & H1 & H2 & _ & _ & _ & Hh & Hurl & _).
  exists r1, st1, r2, st2. split; [exact H1|]. split; [exact H2|].
  assert (Hr1 : req_headers r1 = None).
  { rewrite (build_request_eq Example.count_entries 0%nat Scenario.related
               (Example.with_descriptor Scenario.related Example.state0) eq_refl) in H1.
    by injection H1 as <- _. }
  split; [exact Hr1|]. split; [|exact Hurl].
  rewrite Hh, Hr1. reflexivity.
Defined.

(** ** Retrying after a 401 *)

Lemma counter_after_retry c d k :
  0 ≤ k → counter_or_zero (set_counter (k + 1) (prepared c d)) = k + 1.
Proof.
  intros Hk. unfold counter_or_zero. cbn [counter set_counter].
  destruct (k + 1 =? 0) eqn:E; lia.
Qed.

Lemma no_call_credentials : call_credentials (JObj ∅) = false.
Proof. reflexivity. Qed.

Section Transparency.

Variable transport : list http_options → http_options → outcome.
Variable stringify : gmap string jsval → string.

(** X7. An operation answered 401 once, re-authenticated with success and
    then answered anything but 401 completes with that last answer alone:
    the caller's callback is invoked once, with it (or the promise settles
    with it); the 401 is not shown.  The operation went out twice, the second
    time under the fresh token. *)
Theorem one_401_then_answer_is_transparent n l d st conv body out :
  heap st !! l = Some d →
  api d ≠ "/oauth" →
  0 ≤ counter_or_zero d →
  counter_or_zero d + 1 < retryLimit (this st) →
  has_credentials (this st) = true →
  (conv = Awaitable → promisesExist st = true) →
  nullish body = false →
  let r1 := http_of stringify (this st) d in
  let ra := http_of stringify (this st)
              (oauth_descriptor (this st) JUndefined JUndefined JUndefined) in
  let st1 := before_retry stringify l d body st in
  let d1 := set_counter (counter_or_zero d + 1) (prepared (this st) d) in
  let r2 := http_of stringify (this st1) d1 in
  transport (sent (trace st)) r1 = TReject (JNum 401) →
  transport (sent (trace st) ++ [r1])%list ra = TResolve body →
  transport (sent (trace st) ++ [r1; ra])%list r2 = out →
  rejected_401 out = false →
  let run := _request transport stringify (S (S n)) (Some l) (callback_of conv) st in
  run = completed conv out (dispatched stringify l d1 st1)
  ∧ callbacks (since st run.2)
    = match conv, out with
      | WithCallback, TResolve res => [(JNull, res)]
      | WithCallback, TReject err => [(err, JUndefined)]
      | Awaitable, _ => []
      end
  ∧ attempts l (since st run.2) = 2%nat
  ∧ access_token (this run.2) = default JUndefined (get_prop body "access_token")
  ∧ (truthy (access_token (this run.2)) = true →
     ∃ h, req_headers r2 = Some h
          ∧ h !! "Authorization" = Some (access_token (this run.2))).
Proof.
  intros Hl Hapi Hc0 Hc1 Hcred Hp Hbody r1 ra st1 d1 r2 H401 Hauth Hout Hno run.
  assert (Hlt : (l < length (heap st))%nat) by (eapply lookup_lt_Some; eauto).
  assert (Hl1 : heap st1 !! l = Some d1) by (by apply before_retry_lookup).
  assert (Hrun : run = completed conv out (dispatched stringify l d1 st1)).
  { unfold run.
    rewrite (retry_step transport stringify n l d st conv body);
      [|done|by apply String.eqb_neq|lia|done|done|done|done|done].
    fold st1.
    rewrite (request_completes_directly transport stringify n l d1 st1 conv out);
      [|done| | |by right].
    - f_equal. f_equal. unfold entered. destruct conv; [|done].
      unfold d1. rewrite counter_after_retry by done.
      change (retryLimit (this st1)) with (retryLimit (this st)).
      by replace (retryLimit (this st) <=? counter_or_zero d + 1) with false by lia.
    - intros Hconv. split; [by apply Hp|].
      unfold d1. rewrite counter_after_retry by done. exact Hc1.
    - unfold st1. rewrite before_retry_trace, sent_app. exact Hout. }
  split; [done|]. rewrite Hrun.
  assert (Htrace : ∀ t, (trace st1 ++ t)%list
            = (trace st ++ Dispatch l r1 :: Authenticate
                 :: Dispatch (length (heap st)) ra :: t)%list).
  { intros t. unfold st1. rewrite before_retry_trace. by rewrite <- app_assoc. }
  assert (Hne : Nat.eqb l (length (heap st)) = false) by (apply Nat.eqb_neq; lia).
  split; [|split; [|split]].
  - destruct conv, out; cbn [completed snd];
      (erewrite since_app; [|unfold dispatched; sproj; rewrite <- ?app_assoc; apply Htrace]);
      reflexivity.
  - destruct conv, out; cbn [completed snd];
      (erewrite since_app; [|unfold dispatched; sproj; rewrite <- ?app_assoc; apply Htrace]);
      unfold attempts;
      repeat (cbn [List.filter is_dispatch_of app]; rewrite ?Nat.eqb_refl, ?Hne);
      reflexivity.
  - by destruct conv, out.
  - intros Htok.
    assert (Hthis : this (completed conv out (dispatched stringify l d1 st1)).2 = this st1)
      by (by destruct conv, out).
    rewrite Hthis in *. unfold r2. cbn [req_headers http_of]. unfold with_token.
    rewrite Htok. eexists. split; [reflexivity|apply lookup_insert_eq].
Qed.

(** X8. With a callback, when the re-authentication that follows a 401
    fails with a truthy reason, that reason is handed to the caller; the
    operation is not dispatched again and its counter is not touched. *)
Theorem failed_reauthentication_reaches_callback n l d st err :
  heap st !! l = Some d →
  api d ≠ "/oauth" →
  counter_or_zero d < retryLimit (this st) →
  0 < retryLimit (this st) →
  has_credentials (this st) = true →
  truthy err = true →
  let r1 := http_of stringify (this st) d in
  let ra := http_of stringify (this st) (token_request_of (this st) (JObj ∅)) in
  transport (sent (trace st)) r1 = TReject (JNum 401) →
  transport (sent (trace st) ++ [r1])%list ra = TReject err →
  let run := _request transport stringify (S (S n)) (Some l) (Some user_callback) st in
  run.1 = Ok (RVal JUndefined)
  ∧ since st run.2
    = [Dispatch l r1; Authenticate; Dispatch (length (heap st)) ra; Callback err JUndefined]
  ∧ counter <$> heap run.2 !! l = Some (counter d)
  ∧ this run.2 = this st.
Proof.
  intros Hl Hapi Hc Hlim Hcred Herr r1 ra H401 Hauth run. subst r1 ra run.
  assert (Hlt : (l < length (heap st))%nat) by (eapply lookup_lt_Some; eauto).
  assert (Hl1 : heap (dispatched stringify l d st) !! l = Some (prepared (this st) d)).
  { unfold dispatched. sproj. by apply list_lookup_insert_eq. }
  change (_request transport stringify (S (S n)))
    with (_request_body transport stringify (_request transport stringify (S n))).
  rewrite (request_body_dispatch _ _ _ _ d) by done.
  unfold dispatch_and_complete. mstep. sproj. rewrite H401.
  change (set_trace _ _) with (dispatched stringify l d st).
  unfold reject_callback. rewrite !bind_assoc.
  rewrite (bind_eq _ _ _ _ _ (deref_eq _ _ _ Hl1)).
  rewrite api_prepared. apply String.eqb_neq in Hapi. rewrite Hapi.
  change (is_401 (JNum 401) && negb false) with true. cbv iota.
  rewrite !bind_assoc.
  erewrite bind_cong; cycle 1.
  { apply (authenticate_callback_outcome transport stringify n (JObj ∅) _ _ (TReject err)).
    - unfold dispatched. sproj. by rewrite Hcred.
    - exact Hlim.
    - unfold dispatched. sproj. rewrite sent_app. exact Hauth. }
  unfold retry_callback, authenticate_callback. rewrite Herr. cbn [negb].
  unfold user_callback, dispatched, authenticating_with. cbn.
  split; [done|]. split; [apply since_app; cbn; by rewrite length_insert, <- !app_assoc|].
  split; [|done].
  rewrite length_insert.
  rewrite list_lookup_insert_ne by lia.
  rewrite lookup_app_l by (by rewrite length_insert).
  rewrite list_lookup_insert_eq by done. cbn. f_equal.
  unfold prepared, with_stripped_query, with_token. by repeat case_match.
Qed.

(** X9. On a client without credentials, a 401 on an operation ends the
    call with the message of line 70, after the single dispatch, in either
    convention: the re-authentication refuses before sending anything. *)
Theorem a_401_without_credentials_reports_missing_credentials n l d st conv :
  heap st !! l = Some d →
  api d ≠ "/oauth" →
  counter_or_zero d < retryLimit (this st) →
  has_credentials (this st) = false →
  (conv = Awaitable → promisesExist st = true) →
  transport (sent (trace st)) (http_of stringify (this st) d) = TReject (JNum 401) →
  _request transport stringify (S n) (Some l) (callback_of conv) st
  = completed conv (TReject (JStr missing_credentials))
      (set_trace (trace (dispatched stringify l d st) ++ [Authenticate])
         (dispatched stringify l d st)).
Proof.
  intros Hl Hapi Hc Hcred Hp H401.
  assert (Hlt : (l < length (heap st))%nat) by (eapply lookup_lt_Some; eauto).
  assert (Hl1 : heap (dispatched stringify l d st) !! l = Some (prepared (this st) d)).
  { unfold dispatched. sproj. by apply list_lookup_insert_eq. }
  apply String.eqb_neq in Hapi.
  change (_request transport stringify (S n))
    with (_request_body transport stringify (_request transport stringify n)).
  rewrite (request_body_dispatch _ _ _ _ d); [|done|done|by destruct conv; auto].
  unfold dispatch_and_complete.
  set (s1 := dispatched stringify l d st) in *.
  destruct conv; cbn [callback_of]; mstep; sproj; rewrite H401;
    change (set_trace (trace _ ++ [Dispatch _ _]) _) with s1.
  - unfold reject_callback. rewrite !bind_assoc.
    rewrite (bind_eq _ _ _ _ _ (deref_eq _ _ _ Hl1)).
    rewrite api_prepared, Hapi.
    change (is_401 (JNum 401) && negb false) with true. cbv iota.
    rewrite !bind_assoc.
    erewrite bind_cong; cycle 1.
    { apply authenticate_refuses; [exact Hcred|exact no_call_credentials]. }
    reflexivity.
  - cbn [p_then]. mstep. cbn [p_catch].
    erewrite bind_eq; [reflexivity|].
    apply settle_promise. unfold catch_handler.
    rewrite (bind_eq _ _ _ _ _ (deref_eq _ _ _ Hl1)).
    rewrite api_prepared, Hapi.
    change (is_401 (JNum 401) && negb false) with true. cbv iota.
    erewrite bind_eq; cycle 1.
    { rewrite authenticate_refuses; [|exact Hcred|exact no_call_credentials].
      unfold _handleErr. mstep.
      replace (promisesExist _) with true by (symmetry; apply (Hp eq_refl)).
      reflexivity. }
    reflexivity.
Qed.

End Transparency.

Lemma one_401_then_answer_is_transparent_witness :
  let st := Example.with_descriptor Example.trending Example.state0 in
  let run := _request (Example.expired_until 1) Example.count_entries 2 (Some 0%nat)
               (Some user_callback) st in
  callbacks (since st run.2) = [(JNull, Example.gifs)]
  ∧ attempts 0%nat (since st run.2) = 2%nat.
Proof.
  cbv zeta.
  destruct (one_401_then_answer_is_transparent
              (Example.expired_until 1) Example.count_entries 0 0%nat Example.trending
              (Example.with_descriptor Example.trending Example.state0)
              WithCallback Example.token_body (TResolve Example.gifs))
    as (_ & Hcb & Hatt & _);
    [reflexivity|discriminate|reflexivity|reflexivity|reflexivity|discriminate
    |reflexivity|reflexivity|reflexivity|reflexivity|reflexivity|].
  split; [exact Hcb|exact Hatt].
Defined.

Lemma failed_reauthentication_reaches_callback_witness :
  let st := Example.with_descriptor Example.trending Example.state0 in
  let run := _request Scenario.outage Example.count_entries 2 (Some 0%nat)
               (Some user_callback) st in
  callbacks (since st run.2) = [(JNum 500, JUndefined)]
  ∧ attempts 0%nat (since st run.2) = 1%nat.
Proof.
  cbv zeta.
  destruct (failed_reauthentication_reaches_callback
              Scenario.outage Example.count_entries 0 0%nat Example.trending
              (Example.with_descriptor Example.trending Example.state0) (JNum 500))
    as (_ & Hsince & _);
    [reflexivity|discriminate|reflexivity|reflexivity|reflexivity|reflexivity
    |reflexivity|reflexivity|].
  split; [exact (f_equal callbacks Hsince)|exact (f_equal (attempts 0%nat) Hsince)].
Defined.

Lemma a_401_without_credentials_reports_missing_credentials_witness :
  let st := Example.with_descriptor Example.trending (initial_state true Scenario.anonymous) in
  (_request Example.always_401 Example.count_entries 1 (Some 0%nat) None st).1
  = Ok (RPromise (Rejected (JStr missing_credentials))).
Proof.
  cbv zeta.
  refine (f_equal fst
            (a_401_without_credentials_reports_missing_credentials
               Example.always_401 Example.count_entries 0 0%nat Example.trending
               (Example.with_descriptor Example.trending
                  (initial_state true Scenario.anonymous))
               Awaitable _ _ _ _ _ _));
    [reflexivity|discriminate|reflexivity|reflexivity|reflexivity|reflexivity].
Defined.

(** ** The promise convention always settles *)







Section Settling.

Variable transport : list http_options → http_options → outcome.
Variable stringify : gmap string jsval → string.



End Settling.





(** ** The endpoint methods *)

Ltac unfold_descriptors :=
  unfold getCategories_descriptor, getTrending_descriptor,
    getTrendingCategories_descriptor, getTrendingTags_descriptor,
    getTrendingTagsPopulated_descriptor, search_descriptor, searchById_descriptor,
    getRelatedContent_descriptor, artifacts_descriptor, stickers_descriptor.

(** X12. A field that has a documented default is forwarded as given only
    when the given value is truthy: a given 0, empty string, false or null is
    replaced by the default, as an omitted one is. *)
Theorem given_field_is_kept_only_when_truthy m k v (o : gmap string jsval) x st :
  documented_default m k = Some v →
  o !! k = Some x →
  ∃ d q, descriptor_of m (JObj o) st = (Ok d, st)
         ∧ query d = Some q
         ∧ q !! k = Some (if truthy x then x else v).
Proof.
  intros Hd Hk.
  destruct m; cbn [documented_default] in Hd; try discriminate;
    repeat match type of Hd with
           | context [String.eqb k ?s] => destruct (String.eqb_spec k s); subst
           end;
    simplify_eq;
    (eexists _, _; split; [reflexivity|]; split; [reflexivity|]);
    cbn [get_prop]; rewrite Hk; cbn [default]; unfold js_or at 1;
    try (rewrite lookup_insert_eq; done);
    try (rewrite lookup_insert_ne by done; rewrite lookup_insert_eq; done);
    do 2 (rewrite lookup_insert_ne by done); by rewrite lookup_insert_eq.
Qed.

Lemma given_field_is_kept_only_when_truthy_witness :
  (∃ d q, descriptor_of getTrending (JObj (<["count" := JNum 0]> ∅)) Example.state0
          = (Ok d, Example.state0)
          ∧ query d = Some q ∧ q !! "count" = Some (JNum 100))
  ∧ (∃ d q, descriptor_of getTrending (JObj (<["count" := JNum 5]> ∅)) Example.state0
            = (Ok d, Example.state0)
            ∧ query d = Some q ∧ q !! "count" = Some (JNum 5)).
Proof.
  split.
  - exact (given_field_is_kept_only_when_truthy getTrending "count" (JNum 100)
             (<["count" := JNum 0]> ∅) (JNum 0) Example.state0 eq_refl eq_refl).
  - exact (given_field_is_kept_only_when_truthy getTrending "count" (JNum 100)
             (<["count" := JNum 5]> ∅) (JNum 5) Example.state0 eq_refl eq_refl).
Defined.

(** X13. Called without options (undefined or null), the five methods that
    start with [if (!options) options = {}] behave as on the empty mapping;
    the other five ([search], [searchById], [getRelatedContent], [artifacts],
    [stickers]) raise a TypeError on the spot: nothing is dispatched and the
    error reaches neither the callback nor a promise. *)
Theorem missing_options_are_tolerated_only_by_guarded_methods
    transport stringify fuel m options cb st :
  nullish options = true →
  call transport stringify fuel m options cb st
  = if guards_options m
    then call transport stringify fuel m (JObj ∅) cb st
    else (Throw JTypeError, st).
Proof.
  intros Hn. destruct options; try discriminate; by destruct m.
Qed.

Lemma missing_options_are_tolerated_only_by_guarded_methods_witness :
  call Example.healthy Example.count_entries 1 search JUndefined (Some user_callback)
    Example.state0
  = (Throw JTypeError, Example.state0).
Proof.
  exact (missing_options_are_tolerated_only_by_guarded_methods
           Example.healthy Example.count_entries 1 search JUndefined
           (Some user_callback) Example.state0 eq_refl).
Defined.

Lemma descriptor_of_cases m options st :
  (∃ d, descriptor_of m options st = (Ok d, st)
        ∧ counter d = None ∧ opt_timeout d = JUndefined)
  ∨ descriptor_of m options st = (Throw JTypeError, st).
Proof.
  destruct m; cbn [descriptor_of]; unfold_descriptors;
    unfold bind, prop, ret_, throw;
    repeat (case_match; simplify_eq/=); eauto.
Qed.

(** X14. Where promises are unavailable, an endpoint method that hands no
    callback to [_request] (any method called without one, and [stickers]
    even when called with one) throws: either the TypeError of its missing
    options or the Error of line 340; nothing is dispatched and no callback
    is invoked. *)
Theorem without_promises_a_call_without_callback_throws
    transport stringify fuel m options cb st :
  promisesExist st = false →
  forwarded_callback m cb = None →
  ∃ e st',
    call transport stringify (S fuel) m options cb st = (Throw e, st')
    ∧ (e = JTypeError
       ∨ e = JError "Callback must be provided if promises are unavailable")
    ∧ trace st' = trace st.
Proof.
  intros Hp Hcb. unfold call. rewrite Hcb.
  destruct (descriptor_of_cases m options st) as [(d & Hd & _) | Hd].
  - rewrite (bind_eq _ _ _ _ _ Hd). mstep.
    change (_request transport stringify (S fuel))
      with (_request_body transport stringify (_request transport stringify fuel)).
    unfold _request_body. mstep. sproj. rewrite Hp.
    eexists _, _. split; [reflexivity|]. split; [by right|done].
  - unfold bind. rewrite Hd. eexists _, _. split; [reflexivity|]. split; [by left|done].
Qed.

Lemma without_promises_a_call_without_callback_throws_witness :
  ∃ e st',
    call Example.healthy Example.count_entries 1 stickers
      (JObj (<["search_text" := JStr "cat"]> ∅)) (Some user_callback)
      (initial_state false Example.client0)
    = (Throw e, st')
    ∧ (e = JTypeError
       ∨ e = JError "Callback must be provided if promises are unavailable")
    ∧ trace st' = trace (initial_state false Example.client0).
Proof.
  exact (without_promises_a_call_without_callback_throws
           Example.healthy Example.count_entries 0 stickers
           (JObj (<["search_text" := JStr "cat"]> ∅)) (Some user_callback)
           (initial_state false Example.client0) eq_refl eq_refl).
Defined.

(** ** Construction, then use *)

(** *** Invariants of use *)

Section Invariant.

Variable transport : list http_options → http_options → outcome.
Variable stringify : gmap string jsval → string.
Variable base : string.
Variable n : nat.
Variable Cl : client → Prop.
Variable De : descriptor → Prop.
Variable Rq : http_options → Prop.

Hypothesis Cl_access : ∀ c v, Cl c → Cl (set_access_token v c).
Hypothesis Cl_type : ∀ c v, Cl c → Cl (set_token_type v c).
Hypothesis De_headers : ∀ d h, De d → De (set_headers h d).
Hypothesis De_query : ∀ d q, De d → De (set_query q d).
Hypothesis De_counter : ∀ d k, De d → De (set_counter k d).
Hypothesis De_token : ∀ c a b g, De (oauth_descriptor c a b g).
Hypothesis De_endpoint :
  ∀ m options st d st', descriptor_of m options st = (Ok d, st') → De d.
Hypothesis Rq_built : ∀ c d, Cl c → De d → Rq (http_of stringify c d).

Local Abbreviation inv := (maintained base n Cl De Rq).
Local Abbreviation ok m := (keeps base n Cl De Rq (λ _, True) m).
Local Abbreviation cb_ok cb := (callback_keeps base n Cl De Rq cb).

Lemma maintained_log e st :
  inv st →
  match e with Dispatch _ r => Rq r | _ => True end →
  inv (set_trace (trace st ++ [e]) st).
Proof.
  intros (Hb & Hc & Hh & Hn & Hr) He. unfold maintained. sproj.
  repeat split; try done.
  - rewrite length_app. lia.
  - rewrite drop_app_le by done. rewrite sent_app. apply Forall_app. split; [done|].
    destruct e; cbn; by repeat constructor.
Qed.

Lemma maintained_heap h st : inv st → Forall De h → inv (set_heap h st).
Proof. intros (Hb & Hc & Hh & Hn & Hr) He. by unfold maintained. Qed.

Lemma maintained_this c st : inv st → Cl c → inv (set_this c st).
Proof. intros (Hb & Hc & Hh & Hn & Hr) He. by unfold maintained. Qed.

Lemma keeps_bind {A B} (P : A → Prop) (Q : B → Prop) (m : M A) (k : A → M B) :
  keeps base n Cl De Rq P m →
  (∀ a, P a → keeps base n Cl De Rq Q (k a)) →
  keeps base n Cl De Rq Q (bind m k).
Proof.
  intros Hm Hk st Hst. destruct (Hm st Hst) as [H1 H2]. unfold bind.
  destruct (m st) as [[a| |] s]; cbn in *; [|done..].
  apply (Hk a (H2 a eq_refl) s H1).
Qed.

Lemma ok_bind {A B} (m : M A) (k : A → M B) :
  ok m → (∀ a, ok (k a)) → ok (bind m k).
Proof. intros Hm Hk. apply (keeps_bind _ _ _ _ Hm). intros a _. apply Hk. Qed.

Lemma ok_weaken {A} (P : A → Prop) (m : M A) : keeps base n Cl De Rq P m → ok m.
Proof. intros Hm st Hst. by destruct (Hm st Hst). Qed.

Lemma ok_ret {A} (a : A) : ok (ret_ a).
Proof. by intros st Hst. Qed.

Lemma ok_throw {A} e : ok (@throw A e).
Proof. by intros st Hst. Qed.

Lemma ok_no_result {A} : ok (@no_result A).
Proof. by intros st Hst. Qed.

Lemma ok_gets {A} (f : state → A) : ok (gets f).
Proof. by intros st Hst. Qed.

Lemma ok_log e :
  match e with Dispatch _ r => Rq r | _ => True end → ok (log e).
Proof. intros He st Hst. split; [|done]. by apply maintained_log. Qed.

Lemma ok_dispatch l r : Rq r → ok (dispatch transport l r).
Proof. intros He st Hst. split; [|done]. by apply (maintained_log (Dispatch l r)). Qed.

Lemma ok_deref l : keeps base n Cl De Rq De (deref l).
Proof.
  intros st Hst. unfold deref. destruct (heap st !! l) as [d|] eqn:Hl; cbn; [|done].
  split; [done|]. intros a [= <-]. destruct Hst as (_ & _ & Hh & _).
  by apply (Forall_lookup_1 _ _ _ _ Hh Hl).
Qed.

Lemma ok_update l f : (∀ d, De d → De (f d)) → ok (update l f).
Proof.
  intros Hf. unfold update. eapply keeps_bind; [apply ok_deref|].
  intros d Hd st Hst. split; [|done]. cbn. apply maintained_heap; [done|].
  destruct Hst as (_ & _ & Hh & _). apply Forall_insert; auto.
Qed.

Lemma ok_alloc d : De d → ok (alloc d).
Proof.
  intros Hd st Hst. split; [|done]. cbn. apply maintained_heap; [done|].
  destruct Hst as (_ & _ & Hh & _). apply Forall_app. split; [done|]. by constructor.
Qed.

Lemma ok_prop v k : ok (prop v k).
Proof. unfold prop. destruct (get_prop v k); [apply ok_ret|apply ok_throw]. Qed.

Lemma ok_set_access v : ok (modify (λ st, set_this (set_access_token v (this st)) st)).
Proof.
  intros st Hst. split; [|done]. cbn. apply maintained_this; [done|].
  destruct Hst as (_ & Hc & _). by apply Cl_access.
Qed.

Lemma ok_set_type v : ok (modify (λ st, set_this (set_token_type v (this st)) st)).
Proof.
  intros st Hst. split; [|done]. cbn. apply maintained_this; [done|].
  destruct Hst as (_ & Hc & _). by apply Cl_type.
Qed.

Lemma ok_setToken body : ok (_setToken body).
Proof.
  unfold _setToken.
  apply ok_bind; [apply ok_prop|intros tok].
  apply ok_bind; [apply ok_set_access|intros _].
  apply ok_bind; [apply ok_prop|intros ty]. apply ok_set_type.
Qed.

Lemma ok_settle m : ok m → ok (settle m).
Proof.
  intros Hm st Hst. destruct (Hm st Hst) as [H1 _]. unfold settle.
  by destruct (m st) as [[[v|p]| |] s].
Qed.

Lemma ok_p_then p f : (∀ v, ok (f v)) → ok (p_then p f).
Proof. intros Hf. destruct p; [by apply ok_settle|apply ok_ret]. Qed.

Lemma ok_p_catch p g : (∀ e, ok (g e)) → ok (p_catch p g).
Proof. intros Hg. destruct p; [apply ok_ret|by apply ok_settle]. Qed.

Lemma ok_as_promise r : ok (as_promise r).
Proof. destruct r; [apply ok_throw|apply ok_ret]. Qed.

Lemma build_request_none l st :
  heap st !! l = None → build_request stringify l st = (NoResult, st).
Proof.
  intros Hl. unfold build_request. mstep.
  destruct (truthy (if truthy (access_token (this st)) then _ else _)).
  - unfold update, bind, deref. by rewrite Hl.
  - mstep. unfold bind, deref. by rewrite Hl.
Qed.

Lemma keeps_build_request l : keeps base n Cl De Rq Rq (build_request stringify l).
Proof.
  intros st Hst. destruct (heap st !! l) as [d|] eqn:Hl.
  - rewrite (build_request_eq _ _ _ _ Hl). cbn. destruct Hst as (Hb & Hc & Hh & Hn & Hr).
    assert (Hd : De d) by apply (Forall_lookup_1 _ _ _ _ Hh Hl).
    split.
    + apply maintained_heap; [done|]. apply Forall_insert; [done|].
      unfold prepared, with_stripped_query, with_token.
      repeat case_match; auto.
    + intros a [= <-]. by apply Rq_built.
  - by rewrite (build_request_none _ _ Hl).
Qed.

Lemma cb_ok_none : cb_ok None.
Proof. by intros f. Qed.

Lemma cb_ok_some f : (∀ err res, ok (f err res)) → cb_ok (Some f).
Proof. by intros Hf f' [= <-]. Qed.

Lemma cb_ok_user v : cb_ok (callback_of v).
Proof.
  destruct v; [|apply cb_ok_none]. apply cb_ok_some. intros err res.
  unfold user_callback. apply ok_bind; [by apply ok_log|intros _; apply ok_ret].
Qed.

Lemma ok_handleErr err cb : cb_ok cb → ok (_handleErr err cb).
Proof.
  intros Hcb. destruct cb as [f|]; cbn; [by apply Hcb|].
  apply ok_bind; [apply ok_gets|intros []; [apply ok_ret|apply ok_throw]].
Qed.

Section Knot.

Variable rec : option loc → option callback → M ret.
Hypothesis ok_rec : ∀ o cb, cb_ok cb → ok (rec o cb).

Lemma ok_authenticate_callback f :
  (∀ err res, ok (f err res)) → ∀ err res, ok (authenticate_callback f err res).
Proof.
  intros Hf err res. unfold authenticate_callback.
  apply ok_bind; [|intros _; apply ok_ret].
  destruct (negb (truthy err)); [|apply Hf].
  apply ok_bind; [apply ok_setToken|intros _; apply Hf].
Qed.

Lemma ok_authenticate options cb : cb_ok cb → ok (authenticate rec options cb).
Proof.
  intros Hcb. unfold authenticate.
  apply ok_bind; [by apply ok_log|intros _]. cbv zeta.
  apply ok_bind; [apply ok_gets|intros c].
  apply ok_bind; [apply ok_prop|intros o_id].
  apply ok_bind; [apply ok_prop|intros o_secret].
  destruct (_ && _); [by apply ok_handleErr|].
  apply ok_bind; [apply ok_prop|intros o_grant].
  apply ok_bind; [apply ok_alloc, De_token|intros l].
  destruct cb as [f|].
  - apply ok_rec, cb_ok_some, ok_authenticate_callback. by apply Hcb.
  - apply ok_bind; [apply ok_rec, cb_ok_none|intros r].
    apply ok_bind; [apply ok_as_promise|intros p].
    apply ok_bind; [apply ok_p_then|intros p1].
    { intros res. apply ok_bind; [apply ok_setToken|intros _; apply ok_ret]. }
    apply ok_bind; [apply ok_p_catch|intros p2; apply ok_ret].
    intros err. apply ok_ret.
Qed.

Lemma ok_retry_callback l cnt f :
  (∀ err res, ok (f err res)) → ∀ err res, ok (retry_callback rec l cnt f err res).
Proof.
  intros Hf err res. unfold retry_callback. destruct (truthy err).
  - apply ok_bind; [apply Hf|intros _; apply ok_ret].
  - apply ok_bind; [apply ok_update; auto|intros _].
    by apply ok_rec, cb_ok_some.
Qed.

Lemma ok_reject_callback l cnt f err :
  (∀ err res, ok (f err res)) → ok (reject_callback rec l cnt f err).
Proof.
  intros Hf. unfold reject_callback.
  apply ok_bind; [apply (ok_weaken _ _ (ok_deref l))|intros d].
  destruct (_ && _).
  - apply ok_bind; [|intros _; apply ok_ret].
    by apply ok_authenticate, cb_ok_some, ok_retry_callback.
  - apply ok_bind; [apply Hf|intros _; apply ok_ret].
Qed.

Lemma ok_catch_handler l cnt err : ok (catch_handler rec l cnt err).
Proof.
  unfold catch_handler.
  apply ok_bind; [apply (ok_weaken _ _ (ok_deref l))|intros d].
  destruct (_ && _); [|apply ok_ret].
  apply ok_bind; [apply ok_authenticate, cb_ok_none|intros r].
  apply ok_bind; [apply ok_as_promise|intros pa].
  apply ok_bind; [apply ok_p_then|intros pb].
  { intros res. apply ok_bind; [apply ok_update; auto|intros _].
    apply ok_rec, cb_ok_none. }
  apply ok_bind; [apply ok_p_catch|intros pc; apply ok_ret].
  intros e. apply ok_ret.
Qed.

Lemma ok_dispatch_and_complete l cnt r cb :
  Rq r → cb_ok cb → ok (dispatch_and_complete transport rec l cnt r cb).
Proof.
  intros Hr Hcb. unfold dispatch_and_complete. destruct cb as [f|].
  - apply ok_bind; [by apply ok_dispatch|intros out].
    apply ok_bind; [|intros _; apply ok_ret].
    destruct out; [by apply Hcb|]. apply ok_reject_callback. by apply Hcb.
  - apply ok_bind; [by apply ok_dispatch|intros out]. cbv zeta.
    apply ok_bind; [apply ok_p_then; intros; apply ok_ret|intros p1].
    apply ok_bind; [apply ok_p_catch, ok_catch_handler|intros p2; apply ok_ret].
Qed.

Lemma ok_request_body o cb :
  cb_ok cb → ok (_request_body transport stringify rec o cb).
Proof.
  intros Hcb. unfold _request_body.
  apply ok_bind; [apply ok_gets|intros pe].
  destruct (_ && _); [apply ok_throw|].
  destruct o as [l|]; [|by apply ok_handleErr].
  apply ok_bind; [apply (ok_weaken _ _ (ok_deref l))|intros d]. cbv zeta.
  apply ok_bind; [apply ok_gets|intros c].
  apply ok_bind.
  { destruct (_ <=? _); [|apply ok_ret].
    destruct cb; [|apply ok_ret].
    apply ok_bind; [by apply ok_handleErr|intros _; apply ok_ret]. }
  intros [r|]; [apply ok_ret|].
  eapply keeps_bind; [apply keeps_build_request|].
  intros r Hr. by apply ok_dispatch_and_complete.
Qed.

End Knot.

Lemma ok_request fuel o cb : cb_ok cb → ok (_request transport stringify fuel o cb).
Proof.
  revert o cb. induction fuel as [|fuel IH]; intros o cb Hcb; [apply ok_no_result|].
  change (_request transport stringify (S fuel))
    with (_request_body transport stringify (_request transport stringify fuel)).
  by apply ok_request_body.
Qed.

Lemma ok_call fuel m options cb :
  cb_ok cb → ok (call transport stringify fuel m options cb).
Proof.
  intros Hcb. unfold call.
  eapply (keeps_bind De).
  { intros st Hst. destruct (descriptor_of m options st) as [r s] eqn:E.
    assert (s = st) as ->.
    { destruct (descriptor_of_cases m options st) as [(d & Hd & _)|Hd];
        rewrite Hd in E; by simplify_eq. }
    split; [done|]. cbn. intros a ->. by eapply De_endpoint. }
  intros d Hd. apply ok_bind; [by apply ok_alloc|intros l].
  apply ok_request. by destruct m.
Qed.

Lemma ok_run_use fuel u : ok (run_use transport stringify fuel u).
Proof.
  destruct u as [m options v|options v]; cbn [run_use].
  - apply ok_call, cb_ok_user.
  - apply ok_authenticate; [intros; by apply ok_request|apply cb_ok_user].
Qed.

Lemma uses_maintain fuel us st :
  inv st → inv (use_all transport stringify fuel us st).
Proof.
  revert st. induction us as [|u us IH]; intros st Hst; [done|].
  cbn [use_all]. apply IH. by apply ok_run_use.
Qed.

End Invariant.

Lemma maintained_start (Cl : client → Prop) (De : descriptor → Prop)
    (Rq : http_options → Prop) st :
  Cl (this st) → Forall De (heap st) →
  maintained (API_BASE_PATH st) (length (trace st)) Cl De Rq st.
Proof.
  intros Hc Hh. unfold maintained. rewrite drop_all.
  repeat split; done.
Qed.

(** Whatever is done with a client, its requests are built on its URL, and
    the module's prefix is left as it is. *)
Lemma uses_stay_under transport stringify fuel us st :
  Forall (built_on stringify (apiUrl (this st)))
    (sent (since st (use_all transport stringify fuel us st)))
  ∧ API_BASE_PATH (use_all transport stringify fuel us st) = API_BASE_PATH st.
Proof.
  destruct (uses_maintain transport stringify (API_BASE_PATH st) (length (trace st))
              (λ c, apiUrl c = apiUrl (this st)) (λ _, True)
              (built_on stringify (apiUrl (this st))))
    with (fuel := fuel) (us := us) (st := st) as (Hb & _ & _ & _ & Hr); try done.
  - intros c d Hc _. exists d. cbn [url http_of]. by rewrite Hc.
  - apply maintained_start; [done|]. by apply Forall_forall.
Qed.

Lemma run_use_keeps_prefix transport stringify fuel u st :
  API_BASE_PATH (run_use transport stringify fuel u st).2 = API_BASE_PATH st.
Proof.
  destruct (uses_stay_under transport stringify fuel [u] st) as [_ H]. exact H.
Qed.

Lemma module_after_sticky transport stringify fuel acts st :
  API_BASE_PATH st = "/v1test" →
  API_BASE_PATH (module_after transport stringify fuel acts st) = "/v1test".
Proof.
  revert st. induction acts as [|[config|c u] acts IH]; intros st Hst; [done|..];
    cbn [module_after]; apply IH.
  - by apply base_path_sticky.
  - by rewrite run_use_keeps_prefix.
Qed.

(** C10. The path prefix belongs to the module, not to the client, and an
    anonymous construction switches it for good.  In a module still on
    [/v1], a client constructed with a configuration leaves the prefix
    alone, has its URL on [/v1] and builds its requests on it;
    constructing one client without configuration sets the module's prefix
    to [/v1test]; and whatever is constructed or called afterwards, every
    client constructed then, with valid credentials or not, leaves the
    prefix there, has its URL on [/v1test], and builds on it the URL of
    every request that any sequence of calls on it sends (token requests
    and retries included, before and after a token is stored). *)
Theorem anonymous_construction_switches_the_module_prefix
    transport stringify fuel st anon :
  API_BASE_PATH st = "/v1" →
  classify anon = Anonymous →
  anon ≠ JNull →
  (∀ cfg c s,
     classify cfg ≠ Anonymous →
     GfycatSDK cfg st = (Ok c, s) →
     API_BASE_PATH s = "/v1"
     ∧ apiUrl c = "https://api.gfycat.com/v1"
     ∧ ∀ us s', Forall (built_on stringify "https://api.gfycat.com/v1")
                  (sent (since (set_this c s')
                           (use_all transport stringify fuel us (set_this c s')))))
  ∧ API_BASE_PATH (GfycatSDK anon st).2 = "/v1test"
  ∧ ∀ acts cfg c s,
      GfycatSDK cfg (module_after transport stringify fuel acts (GfycatSDK anon st).2)
      = (Ok c, s) →
      API_BASE_PATH s = "/v1test"
      ∧ apiUrl c = "https://api.gfycat.com/v1test"
      ∧ ∀ us s', Forall (built_on stringify "https://api.gfycat.com/v1test")
                   (sent (since (set_this c s')
                            (use_all transport stringify fuel us (set_this c s')))).
Proof.
  intros Hst Hanon Hn.
  assert (Hswitch : API_BASE_PATH (GfycatSDK anon st).2 = "/v1test").
  { rewrite (GfycatSDK_eq _ _ Hn). unfold constructed. by rewrite Hanon. }
  split; [|split; [exact Hswitch|]].
  - intros cfg c s Hcfg Hc.
    assert (Hcs : s = st ∧ apiUrl c = "https://api.gfycat.com/v1").
    { destruct (null_or_not cfg) as [->|Hcn]; [done|].
      rewrite (GfycatSDK_eq _ _ Hcn) in Hc. unfold constructed in Hc.
      destruct (classify cfg); [|done|done]. injection Hc as <- <-.
      split; [done|]. cbn [apiUrl]. by rewrite Hst. }
    destruct Hcs as [-> Hurl]. split; [done|]. split; [done|]. intros us s'.
    destruct (uses_stay_under transport stringify fuel us (set_this c s')) as [Hr _].
    cbn [this set_this] in Hr. rewrite Hurl in Hr. exact Hr.
  - intros acts cfg c s Hc.
    set (s0 := module_after transport stringify fuel acts (GfycatSDK anon st).2) in *.
    assert (Hbase : API_BASE_PATH s0 = "/v1test") by by apply module_after_sticky.
    assert (Hs : API_BASE_PATH s = "/v1test").
    { pose proof (base_path_sticky cfg s0 Hbase) as H. by rewrite Hc in H. }
    assert (Hurl : apiUrl c = "https://api.gfycat.com/v1test").
    { destruct (null_or_not cfg) as [->|Hcfg]; [done|].
      rewrite (GfycatSDK_eq _ _ Hcfg) in Hc. unfold constructed in Hc.
      destruct (classify cfg); simplify_eq; cbn [apiUrl]; [|done].
      by rewrite Hbase. }
    split; [done|]. split; [done|]. intros us s'.
    destruct (uses_stay_under transport stringify fuel us (set_this c s')) as [Hr _].
    cbn [this set_this] in Hr. rewrite Hurl in Hr. exact Hr.
Qed.

Lemma anonymous_construction_switches_the_module_prefix_witness :
  (∃ c s, GfycatSDK Example.credentials Example.state0 = (Ok c, s)
          ∧ apiUrl c = "https://api.gfycat.com/v1")
  ∧ API_BASE_PATH (GfycatSDK JUndefined Example.state0).2 = "/v1test"
  ∧ ∃ c s,
      GfycatSDK Example.credentials
        (module_after Example.healthy Example.count_entries 3
           [Construct Example.credentials;
            Use Example.client0 (CallMethod getTrending JUndefined WithCallback)]
           (GfycatSDK JUndefined Example.state0).2) = (Ok c, s)
      ∧ client_id c = JStr "id"
      ∧ apiUrl c = "https://api.gfycat.com/v1test"
      ∧ Forall (built_on Example.count_entries "https://api.gfycat.com/v1test")
          (sent (since (set_this c s)
                   (use_all Example.healthy Example.count_entries 3
                      [CallAuthenticate JUndefined WithCallback;
                       CallMethod getTrending JUndefined Awaitable]
                      (set_this c s))))
      ∧ length (sent (since (set_this c s)
                   (use_all Example.healthy Example.count_entries 3
                      [CallAuthenticate JUndefined WithCallback;
                       CallMethod getTrending JUndefined Awaitable]
                      (set_this c s))))
        = 2%nat.
Proof.
  destruct (anonymous_construction_switches_the_module_prefix
              Example.healthy Example.count_entries 3 Example.state0 JUndefined)
    as (Hbefore & Hswitch & Hafter); [reflexivity|reflexivity|discriminate|].
  split; [|split; [exact Hswitch|]].
  - eexists _, _. split; [reflexivity|].
    eapply (Hbefore Example.credentials); [discriminate|reflexivity].
  - eexists _, _. split; [reflexivity|]. split; [reflexivity|].
    destruct (Hafter [Construct Example.credentials;
                      Use Example.client0 (CallMethod getTrending JUndefined WithCallback)]
                Example.credentials _ _ eq_refl) as (_ & Hurl & Hreq).
    split; [exact Hurl|]. split; [apply Hreq|reflexivity].
Defined.

(** X15. The constructor sets a timeout only when it is given credentials
    (line 44); no endpoint method and no [authenticate] sets one on its
    descriptor, and nothing overwrites the client's, storing a token
    included.  So whatever calls are made on a client, in a store whose
    descriptors have no timeout of their own, every request sent (token
    requests and retries included) carries the configured timeout, or 30000,
    when the client was built with credentials, and undefined when it was
    built without configuration. *)
Theorem request_timeout_is_the_clients
    transport stringify fuel config st0 c st1 us s :
  GfycatSDK config st0 = (Ok c, st1) →
  Forall no_own_timeout (heap s) →
  Forall (λ r, req_timeout r = configured_timeout config)
    (sent (since (set_this c s) (use_all transport stringify fuel us (set_this c s)))).
Proof.
  intros Hc Hh.
  assert (Ht : timeout c = configured_timeout config).
  { destruct (null_or_not config) as [->|Hn]; [done|].
    rewrite (GfycatSDK_eq _ _ Hn) in Hc. unfold constructed, configured_timeout in *.
    destruct (classify config); by simplify_eq. }
  destruct (uses_maintain transport stringify (API_BASE_PATH s)
              (length (trace (set_this c s)))
              (λ c', timeout c' = configured_timeout config) no_own_timeout
              (λ r, req_timeout r = configured_timeout config))
    with (fuel := fuel) (us := us) (st := set_this c s) as (_ & _ & _ & _ & Hr);
    try done.
  - intros m options st d st' Hd.
    destruct (descriptor_of_cases m options st) as [(d' & Hd' & _ & Hto) | Hd'];
      rewrite Hd' in Hd; by simplify_eq.
  - intros c' d Hc' Hd. cbn [req_timeout http_of]. by rewrite Hd.
  - by apply (maintained_start _ _ _ (set_this c s)).
Qed.

Lemma request_timeout_is_the_clients_witness :
  ∃ c s,
    GfycatSDK Scenario.patient Example.state0 = (Ok c, s)
    ∧ Forall (λ r, req_timeout r = JNum 5000)
        (sent (since (set_this c s)
                 (use_all (Example.expired_until 1) Example.count_entries 4
                    [CallMethod getTrending JUndefined WithCallback] (set_this c s))))
    ∧ length (sent (since (set_this c s)
                 (use_all (Example.expired_until 1) Example.count_entries 4
                    [CallMethod getTrending JUndefined WithCallback] (set_this c s))))
      = 3%nat.
Proof.
  eexists _, _. split; [reflexivity|]. split; [|reflexivity].
  apply (request_timeout_is_the_clients (Example.expired_until 1) Example.count_entries 4
           Scenario.patient Example.state0 _ _
           [CallMethod getTrending JUndefined WithCallback] _ eq_refl).
  constructor.
Defined.



(** X17. Only an anonymous construction moves the module off '/v1': as long
    as every configuration so far was truthy (accepted or rejected) or null,
    the prefix is the one the module started with, and a client then built
    with credentials has its URL on it. *)
Theorem prefix_is_kept_until_an_anonymous_construction configs cfg st c st' :
  Forall (λ o, truthy o = true ∨ o = JNull) configs →
  truthy cfg = true →
  GfycatSDK cfg (construct_all configs st) = (Ok c, st') →
  API_BASE_PATH st' = API_BASE_PATH st
  ∧ apiUrl c = API_HOSTNAME +:+ API_BASE_PATH st.
Proof.
  intros Hall Hcfg Hc.
  assert (Hstep : ∀ o s, truthy o = true ∨ o = JNull →
            API_BASE_PATH (GfycatSDK o s).2 = API_BASE_PATH s).
  { intros o s [Ho | ->]; [|done].
    rewrite (GfycatSDK_eq o s) by (by destruct o).
    unfold constructed, classify. rewrite Ho.
    by destruct (hasOwnProperty o "client_id" && hasOwnProperty o "client_secret"). }
  assert (Hkeep : API_BASE_PATH (construct_all configs st) = API_BASE_PATH st).
  { revert st Hc. induction Hall as [|o os Ho Hos IH]; intros st Hc; [done|].
    cbn [construct_all] in *. rewrite (IH _ Hc). by apply Hstep. }
  rewrite (GfycatSDK_eq cfg) in Hc by (by destruct cfg).
  unfold constructed, classify in Hc. rewrite Hcfg in Hc.
  destruct (hasOwnProperty cfg "client_id" && hasOwnProperty cfg "client_secret");
    simplify_eq.
  cbn [apiUrl]. by rewrite Hkeep.
Qed.

Lemma prefix_is_kept_until_an_anonymous_construction_witness :
  ∃ c st',
    GfycatSDK Example.credentials
      (construct_all [Example.credentials; JNum 5; JNull] Example.state0) = (Ok c, st')
    ∧ API_BASE_PATH st' = "/v1"
    ∧ apiUrl c = "https://api.gfycat.com/v1".
Proof.
  eexists _, _. split; [reflexivity|].
  apply (prefix_is_kept_until_an_anonymous_construction
           [Example.credentials; JNum 5; JNull] Example.credentials Example.state0);
    [|reflexivity|reflexivity].
  repeat (constructor; [first [left; reflexivity | right; reflexivity]|]).
  constructor.
Defined.
